(** * wmediumd: the medium engine of [wmediumd.c]

    A shallow embedding of the frame scheduler of wmediumd (the wireless
    medium simulator for mac80211_hwsim): packet durations, the send-time
    computation of [queue_frame], the timer of [rearm_timer], and the
    delivery path of [timer_cb].

    C [int] values are mathematical integers; an operation whose C behaviour
    is undefined (signed overflow, division by zero, an access outside an
    array or outside the payload) yields [Undefined].  Every function that
    can reach such an operation returns an [outcome]. *)

From Stdlib Require Import ZArith List Bool Lia QArith.
Import ListNotations.
Local Open Scope Z_scope.

(** ** Undefined behaviour as an outcome *)

Inductive ub : Type :=
| SignedOverflow
| DivisionByZero
| OutOfBounds
| Uninitialised.

Inductive outcome (A : Type) : Type :=
| Ok (a : A)
| Undefined (why : ub).

Arguments Ok {A} a.
Arguments Undefined {A} why.

Definition bind {A B : Type} (m : outcome A) (k : A -> outcome B) : outcome B :=
  match m with
  | Ok a => k a
  | Undefined why => Undefined why
  end.

Declare Scope outcome_scope.
Delimit Scope outcome_scope with outcome.
Notation "x <- m ;; k" := (bind m (fun x => k))
  (at level 61, m at next level, right associativity) : outcome_scope.
Notation "' p <- m ;; k" := (bind m (fun x => let p := x in k))
  (at level 61, p pattern, m at next level, right associativity) : outcome_scope.
Local Open Scope outcome_scope.

(** ** C [int] arithmetic (32 bits, two's complement) *)

Definition INT_MIN : Z := - 2 ^ 31.
Definition INT_MAX : Z := 2 ^ 31 - 1.

Definition in_int (z : Z) : bool := (INT_MIN <=? z) && (z <=? INT_MAX).

Definition int_of (z : Z) : outcome Z :=
  if in_int z then Ok z else Undefined SignedOverflow.

Definition iadd (a b : Z) : outcome Z := int_of (a + b).
Definition isub (a b : Z) : outcome Z := int_of (a - b).
Definition imul (a b : Z) : outcome Z := int_of (a * b).

(** C division truncates toward zero. *)
Definition idiv (a b : Z) : outcome Z :=
  if b =? 0 then Undefined DivisionByZero else int_of (Z.quot a b).

(** [a << n] on a signed operand: defined for a non-negative [a] whose
    shifted value is representable. *)
Definition ishl (a n : Z) : outcome Z :=
  if (a <? 0) || (n <? 0) || (32 <=? n) then Undefined SignedOverflow
  else int_of (Z.shiftl a n).

(** ** The rate table and packet durations *)

Definition index_to_rate_table : list Z :=
  [60; 90; 120; 180; 240; 360; 480; 540].

(** [index_to_rate[rate_idx]]: an index outside the array is an
    out-of-bounds read. *)
Definition index_to_rate (rate_idx : Z) : outcome Z :=
  if rate_idx <? 0 then Undefined OutOfBounds
  else match nth_error index_to_rate_table (Z.to_nat rate_idx) with
       | Some r => Ok r
       | None => Undefined OutOfBounds
       end.

(** [(a + b-1) / b] *)
Definition div_round (a b : Z) : outcome Z :=
  s <- iadd a b ;;
  s1 <- isub s 1 ;;
  idiv s1 b.

(** [16 + 4 + 4 * div_round((16 + 8 * len + 6) * 10, 4 * rate)] *)
Definition pkt_duration (len rate : Z) : outcome Z :=
  l8 <- imul 8 len ;;
  b0 <- iadd 16 l8 ;;
  bits <- iadd b0 6 ;;
  num <- imul bits 10 ;;
  den <- imul 4 rate ;;
  n_sym <- div_round num den ;;
  t <- imul 4 n_sym ;;
  hd <- iadd 16 4 ;;
  iadd hd t.

(** The value [pkt_duration] computes when no operation overflows. *)
Definition pkt_duration_value (len rate : Z) : Z :=
  20 + 4 * Z.quot ((16 + 8 * len + 6) * 10 + 4 * rate - 1) (4 * rate).

(** Up to this [len], [pkt_duration] stays inside [int] at every rate of the
    table; one byte more overflows at the rate 540. *)
Definition PKT_LEN_MAX : Z := 26843515.

(** ** Data model *)

(** Modelled from the spec: [ETH_ALEN] comes from a header that is not part
    of the sources at hand; a MAC address is 6 bytes. *)
Definition ETH_ALEN : nat := 6.

(** Modelled from the spec: [IEEE80211_TX_MAX_RATES] is declared in
    ieee80211.h, which is not part of the sources at hand; the ladder holds
    up to MAX_RATES pairs, typically 4. *)
Definition IEEE80211_TX_MAX_RATES : nat := 4.

(** Modelled from the spec: [HWSIM_TX_STAT_ACK] is declared in wmediumd.h,
    which is not part of the sources at hand; the ACK bit of the flags is a
    one-bit mask (mac80211_hwsim uses [1 << 2]). *)
Definition HWSIM_TX_STAT_ACK : Z := 4.

(** A byte is a [Z] in [0, 256); a MAC address is [ETH_ALEN] bytes. *)
Definition u8 (z : Z) : Z := z mod 256.
Definition u32 (z : Z) : Z := z mod 2 ^ 32.

(** [struct hwsim_tx_rate]: [idx] is a signed char ([-1] marks an absent
    rung), [count] an unsigned char. *)
Record hwsim_tx_rate : Type := mk_rate { idx : Z; count : Z }.

Record timespec : Type := mk_timespec { tv_sec : Z; tv_nsec : Z }.

(** [struct frame].  The list linkage is the position in the queue; the
    [acked] member is never read or written.  [sender] is the position of
    the sending station in [ctx->stations]; [flags] is the 32-bit pattern of
    the flags word; [data_len] is the length of [data]. *)
Record frame : Type := mk_frame {
  expires : timespec;
  cookie : Z;
  flags : Z;
  tx_rates_count : Z;
  sender : nat;
  tx_rates : list hwsim_tx_rate;
  data : list Z
}.

Definition data_len (f : frame) : Z := Z.of_nat (length (data f)).

Record wqueue : Type := mk_wqueue {
  frames : list frame;
  cw_min : Z;
  cw_max : Z
}.

Record station : Type := mk_station {
  addr : list Z;
  data_queue : wqueue;
  mgmt_queue : wqueue
}.

(** Messages sent to the kernel with [nl_send_auto_complete]. *)
Inductive nl_msg : Type :=
| HWSIM_CMD_FRAME (receiver : list Z) (payload : list Z) (rx_rate : Z) (signal : Z)
| HWSIM_CMD_TX_INFO_FRAME (transmitter : list Z) (tx_flags : Z) (signal : Z)
    (tx_info : list hwsim_tx_rate) (tx_cookie : Z).

(** [struct wmediumd], with the kernel objects it refers to: [timerfd] is
    the [it_value] of the last [timerfd_settime(TFD_TIMER_ABSTIME)] call (a
    zero value disarms the timer), [sock] the messages sent so far, and
    [drand48_calls] the number of values drawn from [drand48] so far. *)
Record wmediumd : Type := mk_wmediumd {
  timerfd : timespec;
  sock : list nl_msg;
  stations : list station;
  drand48_calls : nat
}.

(** The attributes of an incoming [HWSIM_CMD_FRAME] message. *)
Record hwsim_frame_attrs : Type := mk_attrs {
  ATTR_ADDR_TRANSMITTER : option (list Z);
  ATTR_FRAME : list Z;
  ATTR_FLAGS : Z;
  ATTR_TX_INFO : list hwsim_tx_rate;
  ATTR_COOKIE : Z
}.

Inductive incoming : Type :=
| CMD_FRAME (attrs : hwsim_frame_attrs)
| CMD_OTHER.

(** The external collaborators of the engine: the error model
    ([get_error_prob], probability.h) and the uniform source [drand48].
    [double] values are kept abstract; only the comparison
    [choice > error_prob] is observed. *)
Class Medium : Type := mk_medium {
  double : Type;
  double_of_int : Z -> double;
  double_gt : double -> double -> bool;
  get_error_prob : double -> Z -> Z -> double;
  drand48 : nat -> double
}.

(** ** Queues, time *)

Definition wqueue_init (cw_min cw_max : Z) : wqueue :=
  {| frames := []; cw_min := cw_min; cw_max := cw_max |}.

(** The station set-up loop of [main]. *)
Definition init_stations (addrs : list (list Z)) : list station :=
  map (fun a => {| addr := a;
                   data_queue := wqueue_init 15 1023;
                   mgmt_queue := wqueue_init 3 7 |}) addrs.

Definition timespec_before (t1 t2 : timespec) : bool :=
  (tv_sec t1 <? tv_sec t2) ||
  ((tv_sec t1 =? tv_sec t2) && (tv_nsec t1 <? tv_nsec t2)).

(** [time_t] and [long] are 64 bits wide. *)
Definition long_of (z : Z) : outcome Z :=
  if (- 2 ^ 63 <=? z) && (z <=? 2 ^ 63 - 1) then Ok z
  else Undefined SignedOverflow.

(** [usec * 1000] is an [int] product; the sum with [tv_nsec] is a [long].
    One second at most is carried over. *)
Definition timespec_add_usec (t : timespec) (usec : Z) : outcome timespec :=
  ns <- imul usec 1000 ;;
  nsec <- long_of (tv_nsec t + ns) ;;
  if 1000000000 <=? nsec then
    sec <- long_of (tv_sec t + 1) ;;
    nsec' <- long_of (nsec - 1000000000) ;;
    Ok {| tv_sec := sec; tv_nsec := nsec' |}
  else Ok {| tv_sec := tv_sec t; tv_nsec := nsec |}.

(** Modelled from the spec: [list_first_entry] is a macro of list.h, which
    is not part of the sources at hand; [peek_head] returns the first frame
    of a queue, and [rearm_timer] tests the result against NULL for an empty
    queue. *)
Definition list_first_entry (q : list frame) : option frame :=
  match q with
  | [] => None
  | f :: _ => Some f
  end.

(** One [if (frame && (!set_min_expires || timespec_before(...)))] of
    [rearm_timer], on the pair [(set_min_expires, min_expires)]. *)
Definition rearm_visit (acc : bool * timespec) (head : option frame)
  : bool * timespec :=
  match head with
  | Some f =>
      if negb (fst acc) || timespec_before (expires f) (snd acc)
      then (true, expires f)
      else acc
  | None => acc
  end.

(** The same step on a frame that is there. *)
Definition visit_frame (acc : bool * timespec) (f : frame) : bool * timespec :=
  rearm_visit acc (Some f).

Definition rearm_station (acc : bool * timespec) (st : station)
  : bool * timespec :=
  rearm_visit
    (rearm_visit acc (list_first_entry (frames (mgmt_queue st))))
    (list_first_entry (frames (data_queue st))).

(** [rearm_timer].  [min_expires] is a local without initialiser: its
    starting content [stack_min_expires] is whatever the stack holds.
    [expires.it_value = min_expires] is executed whether or not
    [set_min_expires] was raised. *)
Definition rearm_timer (stack_min_expires : timespec) (ctx : wmediumd)
  : wmediumd :=
  let acc := fold_left rearm_station (stations ctx) (false, stack_min_expires) in
  {| timerfd := snd acc;
     sock := sock ctx;
     stations := stations ctx;
     drand48_calls := drand48_calls ctx |}.

(** ** Frame classification *)

(** Modelled from the spec: [struct ieee80211_hdr] is declared in
    ieee80211.h, which is not part of the sources at hand; the engine reads
    [frame_control[0]], the first byte of the payload, and [addr1], the six
    bytes that follow the two-byte frame control and the two-byte duration.
    A read past the payload is a read past the allocation of the frame. *)
Definition hdr_frame_control0 (f : frame) : outcome Z :=
  match data f with
  | b :: _ => Ok b
  | [] => Undefined OutOfBounds
  end.

Definition hdr_addr1 (f : frame) : list Z := skipn 4 (data f).

Definition frame_is_mgmt (f : frame) : outcome bool :=
  fc <- hdr_frame_control0 f ;;
  Ok (Z.land fc 12 =? 0).

Definition is_multicast_ether_addr (a : list Z) : outcome bool :=
  match a with
  | b :: _ => Ok (negb (Z.land 1 b =? 0))
  | [] => Undefined OutOfBounds
  end.

(** Equality of the first [ETH_ALEN] bytes. *)
Definition addr_eqb (a b : list Z) : bool :=
  forallb (fun p => fst p =? snd p)
    (combine (firstn ETH_ALEN a) (firstn ETH_ALEN b)).

(** [memcmp(a, b, ETH_ALEN) == 0]; both operands must hold [ETH_ALEN]
    bytes. *)
Definition memcmp_eq (a b : list Z) : outcome bool :=
  if ((length a <? ETH_ALEN) || (length b <? ETH_ALEN))%nat
  then Undefined OutOfBounds
  else Ok (addr_eqb a b).

(** ** Enqueue: [queue_frame] *)

Definition slot_time : Z := 9.
Definition sifs : Z := 16.
Definition difs : Z := 2 * slot_time + sifs.

(** The locals of [queue_frame] that the two loops update; [calls] counts
    the values drawn from [drand48]. *)
Record tx_locals : Type := mk_locals {
  send_time : Z;
  cw : Z;
  retries : Z;
  is_acked : bool;
  calls : nat
}.

(** [tx_rates[i]]: a rung the incoming attribute did not fill was never
    initialised; an index past the array is out of bounds. *)
Definition read_rung (l : list hwsim_tx_rate) (i : nat) : outcome hwsim_tx_rate :=
  match nth_error l i with
  | Some r => Ok r
  | None => if (i <? IEEE80211_TX_MAX_RATES)%nat then Undefined Uninitialised
            else Undefined OutOfBounds
  end.

(** A store to a member of [tx_rates[i]]. *)
Definition update_rung (l : list hwsim_tx_rate) (i : nat)
    (f : hwsim_tx_rate -> hwsim_tx_rate) : outcome (list hwsim_tx_rate) :=
  r <- read_rung l i ;;
  Ok (firstn i l ++ f r :: skipn (S i) l).

(** [for (...; i < IEEE80211_TX_MAX_RATES; i++) { idx = -1; count = -1; }],
    [fuel] being the number of rungs left. *)
Fixpoint clear_rungs (fuel i : nat) (l : list hwsim_tx_rate)
  : outcome (list hwsim_tx_rate) :=
  match fuel with
  | O => Ok l
  | S fuel' =>
      l1 <- update_rung l i (fun _ => {| idx := -1; count := u8 (-1) |}) ;;
      clear_rungs fuel' (S i) l1
  end.

Definition nth_station (sts : list station) (k : nat) : outcome station :=
  match nth_error sts k with
  | Some st => Ok st
  | None => Undefined OutOfBounds
  end.

(** [list_add_tail(&frame->list, &queue->frames)] on the queue picked in
    station [k]. *)
Definition wqueue_add_tail (q : wqueue) (f : frame) : wqueue :=
  {| frames := frames q ++ [f]; cw_min := cw_min q; cw_max := cw_max q |}.

Definition station_add_tail (mgmt : bool) (f : frame) (st : station) : station :=
  if mgmt
  then {| addr := addr st; data_queue := data_queue st;
          mgmt_queue := wqueue_add_tail (mgmt_queue st) f |}
  else {| addr := addr st; data_queue := wqueue_add_tail (data_queue st) f;
          mgmt_queue := mgmt_queue st |}.

Fixpoint update_station (sts : list station) (k : nat) (f : station -> station)
  : list station :=
  match sts, k with
  | [], _ => []
  | st :: rest, O => f st :: rest
  | st :: rest, S k' => st :: update_station rest k' f
  end.

(** [int ack_time_usec = pkt_duration(14, index_to_rate[0]) + sifs] *)
Definition ack_time : outcome Z :=
  r0 <- index_to_rate 0 ;;
  d14 <- pkt_duration 14 r0 ;;
  iadd d14 sifs.

Section Engine.

Context {M : Medium}.

(** The inner loop [for (j = 0; j < frame->tx_rates[i].count; j++)], run
    from attempt [j] with [n] attempts left.  The result carries the value
    of [j] when the loop is left. *)
Fixpoint tx_attempts (queue_cw_max len rate_idx ack_time_usec : Z)
    (error_prob : double) (noack : bool)
    (n : nat) (j : Z) (loc : tx_locals) : outcome (Z * tx_locals) :=
  match n with
  | O => Ok (j, loc)
  | S n' =>
      rate <- index_to_rate rate_idx ;;
      d <- pkt_duration len rate ;;
      t <- iadd difs d ;;
      send_time1 <- iadd (send_time loc) t ;;
      let retries1 := retries loc + 1 in
      if noack then
        Ok (j, {| send_time := send_time1; cw := cw loc; retries := retries1;
                  is_acked := true; calls := calls loc |})
      else
        '(send_time2, cw2) <-
          (if 0 <? j then
             p <- imul (cw loc) slot_time ;;
             h <- idiv p 2 ;;
             s <- iadd send_time1 h ;;
             c <- ishl (cw loc) 1 ;;
             c1 <- iadd c 1 ;;
             Ok (s, if queue_cw_max <? c1 then queue_cw_max else c1)
           else Ok (send_time1, cw loc)) ;;
        let choice := drand48 (calls loc) in
        if double_gt choice error_prob then
          Ok (j, {| send_time := send_time2; cw := cw2; retries := retries1;
                    is_acked := true; calls := S (calls loc) |})
        else
          send_time3 <- iadd send_time2 ack_time_usec ;;
          tx_attempts queue_cw_max len rate_idx ack_time_usec error_prob noack
            n' (j + 1)
            {| send_time := send_time3; cw := cw2; retries := retries1;
               is_acked := false; calls := S (calls loc) |}
  end.

(** The outer loop
    [for (i = 0; i < IEEE80211_TX_MAX_RATES && !is_acked; i++)], run from
    rung [i] with [fuel] rungs left.  The result carries the values of [i]
    and [j] when the loop is left: after a [break] of the inner loop the
    increment [i++] is still executed before [!is_acked] is tested. *)
Fixpoint tx_rungs (queue_cw_max len ack_time_usec : Z) (noack : bool)
    (ladder : list hwsim_tx_rate)
    (fuel : nat) (i : nat) (j : Z) (loc : tx_locals)
  : outcome (nat * Z * tx_locals) :=
  match fuel with
  | O => Ok (i, j, loc)
  | S fuel' =>
      if is_acked loc then Ok (i, j, loc)
      else
        rung <- read_rung ladder i ;;
        let rate_idx := idx rung in
        if rate_idx <? 0 then Ok (i, j, loc)
        else
          let error_prob := get_error_prob (double_of_int 15) rate_idx len in
          '(j', loc') <-
            tx_attempts queue_cw_max len rate_idx ack_time_usec error_prob noack
              (Z.to_nat (count rung)) 0 loc ;;
          tx_rungs queue_cw_max len ack_time_usec noack ladder
            fuel' (S i) j' loc'
  end.

(** The send-time computation of [queue_frame] for a frame put on [queue]:
    the values of [i], [j] and the other locals after the loops.  [j] has no
    initialiser; it is read afterwards only when [is_acked] is set, and then
    the inner loop has assigned it. *)
Definition tx_simulate (calls0 : nat) (queue : wqueue) (f : frame)
  : outcome (nat * Z * tx_locals) :=
  ack_time_usec <- ack_time ;;
  mgmt <- frame_is_mgmt f ;;
  noack <- (if mgmt then Ok true else is_multicast_ether_addr (hdr_addr1 f)) ;;
  tx_rungs (cw_max queue) (data_len f) ack_time_usec noack (tx_rates f)
    IEEE80211_TX_MAX_RATES 0%nat 0
    {| send_time := 0; cw := cw_min queue; retries := 0;
       is_acked := false; calls := calls0 |}.

(** The [if (is_acked)] block: the count is stored at the value [i] has
    after the loops, the rungs from [i + 1] on are cleared. *)
Definition rewrite_ladder (ladder : list hwsim_tx_rate) (i : nat) (j : Z)
  : outcome (list hwsim_tx_rate) :=
  l1 <- update_rung ladder i (fun r => {| idx := idx r; count := u8 (j + 1) |}) ;;
  clear_rungs (IEEE80211_TX_MAX_RATES - S i) (S i) l1.

(** The frame as [queue_frame] leaves it in the queue, with the number of
    [drand48] values drawn and the value of [retries]. *)
Definition queue_frame_result (now : timespec) (calls0 : nat) (queue : wqueue)
    (f : frame) : outcome (frame * tx_locals) :=
  '(i, j, loc) <- tx_simulate calls0 queue f ;;
  ladder <- (if is_acked loc then rewrite_ladder (tx_rates f) i j
             else Ok (tx_rates f)) ;;
  let flags' := if is_acked loc then Z.lor (flags f) HWSIM_TX_STAT_ACK
                else flags f in
  target <- timespec_add_usec now (send_time loc) ;;
  Ok ({| expires := target; cookie := cookie f; flags := flags';
         tx_rates_count := tx_rates_count f; sender := sender f;
         tx_rates := ladder; data := data f |}, loc).

(** [queue_frame(ctx, station, frame)]; [now] is the value read from
    [clock_gettime(CLOCK_MONOTONIC)].  The diagnostic [printf] is left out. *)
Definition queue_frame (stack_min_expires now : timespec) (ctx : wmediumd)
    (k : nat) (f : frame) : outcome wmediumd :=
  st <- nth_station (stations ctx) k ;;
  mgmt <- frame_is_mgmt f ;;
  let queue := if mgmt then mgmt_queue st else data_queue st in
  '(f', loc) <- queue_frame_result now (drand48_calls ctx) queue f ;;
  Ok (rearm_timer stack_min_expires
        {| timerfd := timerfd ctx;
           sock := sock ctx;
           stations := update_station (stations ctx) k (station_add_tail mgmt f');
           drand48_calls := calls loc |}).

(** ** Ingress: [process_messages_cb] *)

(** [get_station_by_addr]: the position of the first station whose address
    compares equal. *)
Fixpoint get_station_by_addr (sts : list station) (a : list Z) (k : nat)
  : outcome (option nat) :=
  match sts with
  | [] => Ok None
  | st :: rest =>
      same <- memcmp_eq (addr st) a ;;
      if same then Ok (Some k) else get_station_by_addr rest a (S k)
  end.

(** The frame built from the attributes of the message; [expires] is not
    initialised until [queue_frame] stores it (shown here as zero). *)
Definition frame_of_attrs (attrs : hwsim_frame_attrs) (s : nat) : frame :=
  {| expires := {| tv_sec := 0; tv_nsec := 0 |};
     cookie := ATTR_COOKIE attrs;
     flags := ATTR_FLAGS attrs;
     tx_rates_count := Z.of_nat (length (ATTR_TX_INFO attrs));
     sender := s;
     tx_rates := firstn IEEE80211_TX_MAX_RATES (ATTR_TX_INFO attrs);
     data := ATTR_FRAME attrs |}.

(** [process_messages_cb]; allocation is taken to succeed. *)
Definition process_messages_cb (stack_min_expires now : timespec)
    (ctx : wmediumd) (m : incoming) : outcome wmediumd :=
  match m with
  | CMD_FRAME attrs =>
      match ATTR_ADDR_TRANSMITTER attrs with
      | Some src =>
          found <- get_station_by_addr (stations ctx) src 0%nat ;;
          match found with
          | None => Ok ctx
          | Some s => queue_frame stack_min_expires now ctx s (frame_of_attrs attrs s)
          end
      | None => Ok ctx
      end
  | CMD_OTHER => Ok ctx
  end.

(** ** Delivery: [deliver_frame], [deliver_expired_frames], [timer_cb] *)

(** The libnl calls are taken to succeed.  [send_cloned_frame_msg] does not
    use its [rate_idx] and [signal] arguments. *)
Definition send_cloned_frame_msg (dst payload : list Z) (rate_idx signal : Z)
  : nl_msg :=
  HWSIM_CMD_FRAME dst payload 1 (u32 (-50)).

Definition send_tx_info_frame_nl (src : list Z) (fl signal : Z)
    (tx_attempts : list hwsim_tx_rate) (ck : Z) : nl_msg :=
  HWSIM_CMD_TX_INFO_FRAME src fl (u32 signal) tx_attempts ck.

(** The loop of [deliver_frame] over [ctx->stations]. *)
Fixpoint deliver_rx (sts : list station) (src dest : list Z) (f : frame)
  : outcome (list nl_msg) :=
  match sts with
  | [] => Ok []
  | st :: rest =>
      same <- memcmp_eq src (addr st) ;;
      if same then deliver_rx rest src dest f
      else
        mc <- is_multicast_ether_addr dest ;;
        hit <- (if mc then Ok true else memcmp_eq dest (addr st)) ;;
        out <- deliver_rx rest src dest f ;;
        Ok (if hit
            then send_cloned_frame_msg (addr st) (data f) 1 35 :: out
            else out)
  end.

(** [deliver_frame]: the messages it sends, in order. *)
Definition deliver_frame (sts : list station) (f : frame) : outcome (list nl_msg) :=
  snd_st <- nth_station sts (sender f) ;;
  let src := addr snd_st in
  let dest := hdr_addr1 f in
  clones <- (if negb (Z.land (flags f) HWSIM_TX_STAT_ACK =? 0)
             then deliver_rx sts src dest f else Ok []) ;;
  Ok (clones ++ [send_tx_info_frame_nl src (flags f) 35 (tx_rates f) (cookie f)]).

(** [deliver_expired_frames_queue]: the frames left in the queue and the
    messages sent.  Station addresses are never written after [main] set
    them, so [sts] is the station list at the start of the handler. *)
Fixpoint deliver_expired_frames_queue (sts : list station) (queue : list frame)
    (now : timespec) : outcome (list frame * list nl_msg) :=
  match queue with
  | [] => Ok ([], [])
  | f :: rest =>
      if timespec_before (expires f) now then
        msgs <- deliver_frame sts f ;;
        '(kept, out) <- deliver_expired_frames_queue sts rest now ;;
        Ok (kept, msgs ++ out)
      else Ok (queue, [])
  end.

Definition deliver_expired_frames_station (sts : list station) (now : timespec)
    (st : station) : outcome (station * list nl_msg) :=
  '(mq, out1) <- deliver_expired_frames_queue sts (frames (mgmt_queue st)) now ;;
  '(dq, out2) <- deliver_expired_frames_queue sts (frames (data_queue st)) now ;;
  Ok ({| addr := addr st;
         data_queue := {| frames := dq; cw_min := cw_min (data_queue st);
                          cw_max := cw_max (data_queue st) |};
         mgmt_queue := {| frames := mq; cw_min := cw_min (mgmt_queue st);
                          cw_max := cw_max (mgmt_queue st) |} |},
      out1 ++ out2).

(** The loop of [deliver_expired_frames] over the stations [todo]. *)
Fixpoint deliver_expired_frames_loop (sts : list station) (now : timespec)
    (todo : list station) : outcome (list station * list nl_msg) :=
  match todo with
  | [] => Ok ([], [])
  | st :: rest =>
      '(st', out1) <- deliver_expired_frames_station sts now st ;;
      '(rest', out2) <- deliver_expired_frames_loop sts now rest ;;
      Ok (st' :: rest', out1 ++ out2)
  end.

(** [deliver_expired_frames]; [now] is the value read from the clock. *)
Definition deliver_expired_frames (now : timespec) (ctx : wmediumd)
  : outcome wmediumd :=
  '(sts', out) <- deliver_expired_frames_loop (stations ctx) now (stations ctx) ;;
  Ok {| timerfd := timerfd ctx;
        sock := sock ctx ++ out;
        stations := sts';
        drand48_calls := drand48_calls ctx |}.

Definition timer_cb (stack_min_expires now : timespec) (ctx : wmediumd)
  : outcome wmediumd :=
  ctx' <- deliver_expired_frames now ctx ;;
  Ok (rearm_timer stack_min_expires ctx').

End Engine.

(** ** Properties of states, as the specification words them *)

(** A time as a number of nanoseconds. *)
Definition ns_of (t : timespec) : Z := tv_sec t * 1000000000 + tv_nsec t.

(** Queue monotonicity: no frame expires before the frame ahead of it. *)
Fixpoint expires_sorted (q : list frame) : bool :=
  match q with
  | a :: (b :: _) as tl =>
      negb (timespec_before (expires b) (expires a)) && expires_sorted tl
  | _ => true
  end.

Definition station_sorted (st : station) : bool :=
  expires_sorted (frames (mgmt_queue st)) && expires_sorted (frames (data_queue st)).

Definition all_queues_sorted (ctx : wmediumd) : bool :=
  forallb station_sorted (stations ctx).

Definition station_empty (st : station) : bool :=
  match frames (mgmt_queue st), frames (data_queue st) with
  | [], [] => true
  | _, _ => false
  end.

Definition all_queues_empty (ctx : wmediumd) : bool :=
  forallb station_empty (stations ctx).

(** The head frames of all queues of all stations. *)
Definition head_of (q : wqueue) : list frame :=
  match frames q with
  | [] => []
  | f :: _ => [f]
  end.

Definition queue_heads (sts : list station) : list frame :=
  flat_map (fun st => head_of (mgmt_queue st) ++ head_of (data_queue st)) sts.

(** All frames queued on a station, on a context. *)
Definition station_frames (st : station) : list frame :=
  frames (mgmt_queue st) ++ frames (data_queue st).

Definition queued_frames (ctx : wmediumd) : list frame :=
  flat_map station_frames (stations ctx).

(** The timer is disarmed by a zero [it_value]. *)
Definition disarmed (t : timespec) : bool :=
  (tv_sec t =? 0) && (tv_nsec t =? 0).

Definition ack_flag_set (fl : Z) : bool :=
  negb (Z.land fl HWSIM_TX_STAT_ACK =? 0).

(** The low bit of the first byte of an address. *)
Definition multicast_bit (a : list Z) : bool :=
  match a with
  | b :: _ => Z.odd b
  | [] => false
  end.

(** The stations that receive a copy of frame [f] sent from address [src]:
    those whose address differs from [src] and equals [addr1], or all of
    those when [addr1] is multicast. *)
Definition receivers (sts : list station) (src : list Z) (f : frame) : list station :=
  filter (fun st => negb (addr_eqb src (addr st)) &&
                    (multicast_bit (hdr_addr1 f) || addr_eqb (hdr_addr1 f) (addr st)))
         sts.

Definition cloned_frame_to (f : frame) (st : station) : nl_msg :=
  HWSIM_CMD_FRAME (addr st) (data f) 1 (u32 (-50)).

Definition tx_info_of (src : list Z) (f : frame) : nl_msg :=
  HWSIM_CMD_TX_INFO_FRAME src (flags f) 35 (tx_rates f) (cookie f).

Definition is_cloned_frame_to (a : list Z) (m : nl_msg) : bool :=
  match m with
  | HWSIM_CMD_FRAME rcv _ _ _ => addr_eqb a rcv
  | HWSIM_CMD_TX_INFO_FRAME _ _ _ _ _ => false
  end.

Definition well_formed_addrs (sts : list station) : Prop :=
  Forall (fun st => length (addr st) = ETH_ALEN) sts.

(** Rate-ladder truncation as the specification words it: rung [i] has
    [count = j + 1], every later rung is absent with [count = 0]. *)
Definition ladder_truncated_at (i : nat) (j : Z) (l : list hwsim_tx_rate) : Prop :=
  (exists r, nth_error l i = Some r /\ count r = j + 1) /\
  (forall k r, (i < k)%nat -> nth_error l k = Some r -> idx r = -1 /\ count r = 0).

(** The expiry lower bound as the specification words it, for the frame
    [f] handed to [queue_frame] at time [now] and put in the queue as [f']. *)
Definition expiry_lower_bound (now : timespec) (f f' : frame) : Prop :=
  exists r0 rate d,
    nth_error (tx_rates f) 0 = Some r0 /\
    index_to_rate (idx r0) = Ok rate /\
    pkt_duration (data_len f) rate = Ok d /\
    ns_of now + 1000 * (difs + d) <= ns_of (expires f').

(** The packet-duration law as the specification words it. *)
Definition pkt_duration_strict_in_len : Prop :=
  forall rate len1 len2 d1 d2,
    In rate index_to_rate_table -> len1 < len2 ->
    pkt_duration len1 rate = Ok d1 -> pkt_duration len2 rate = Ok d2 ->
    d1 < d2.

Definition pkt_duration_strict_in_rate : Prop :=
  forall len r1 r2 d1 d2,
    1 <= len -> In r1 index_to_rate_table -> In r2 index_to_rate_table ->
    r1 < r2 ->
    pkt_duration len r1 = Ok d1 -> pkt_duration len r2 = Ok d2 ->
    d2 < d1.

(** Frame classification as the specification words it: the two bits
    [0x0c] of [payload[0]] are zero. *)
Definition is_management (payload : list Z) : bool :=
  match payload with
  | b :: _ => Z.land b 12 =? 0
  | [] => false
  end.

(** The minimum 802.11 header the specification asks of a payload. *)
Definition MIN_HDR_LEN : nat := 24.

(** One backoff step of the send-time loop: from the second attempt of a
    rung on, half a contention window of slots is added and the window
    doubled up to [cw_max]. *)
Definition backoff_step (queue_cw_max j cw0 s1 s2 cw2 : Z) : Prop :=
  (j <= 0 /\ s2 = s1 /\ cw2 = cw0) \/
  (0 < j /\ 0 <= cw0 /\ s2 = s1 + Z.quot (cw0 * slot_time) 2 /\
   cw2 = if queue_cw_max <? 2 * cw0 + 1 then queue_cw_max else 2 * cw0 + 1).

(** The attempts a ladder allows at most, and the most one attempt on a
    frame of [len] bytes can add to [send_time]: [difs], the packet at the
    slowest rate, half of the widest contention window (1023 slots), and
    the wait for the missing acknowledgement. *)
Definition total_attempts (l : list hwsim_tx_rate) : Z :=
  fold_right (fun r a => count r + a) 0 l.





(** ** Scenarios *)

Module Scenario.

(** An error model under which every attempt is acknowledged, and one under
    which none is. *)
Definition always_ack : Medium :=
  {| double := Q;
     double_of_int := inject_Z;
     double_gt := fun a b => negb (Qle_bool a b);
     get_error_prob := fun _ _ _ => 0%Q;
     drand48 := fun _ => (1 # 2)%Q |}.

Definition never_ack : Medium :=
  {| double := Q;
     double_of_int := inject_Z;
     double_gt := fun a b => negb (Qle_bool a b);
     get_error_prob := fun _ _ _ => 1%Q;
     drand48 := fun _ => (1 # 2)%Q |}.

Definition A : list Z := [2; 0; 0; 0; 0; 1].
Definition B : list Z := [2; 0; 0; 0; 0; 2].
Definition broadcast : list Z := [255; 255; 255; 255; 255; 255].

Definition t0 : timespec := {| tv_sec := 0; tv_nsec := 0 |}.
Definition usec (n : Z) : timespec := {| tv_sec := 0; tv_nsec := 1000 * n |}.

(** Two stations with empty queues, as [main] leaves them. *)
Definition ctx0 : wmediumd :=
  {| timerfd := t0; sock := []; stations := init_stations [A; B];
     drand48_calls := 0 |}.

(** Payloads of [n] bytes addressed to [dst]: a data frame
    ([frame_control[0] = 0x08]) and a management frame
    ([frame_control[0] = 0x00]). *)
Definition data_payload (dst : list Z) (n : nat) : list Z :=
  [8; 0; 0; 0] ++ dst ++ repeat 0 (n - 10).
Definition mgmt_payload (dst : list Z) (n : nat) : list Z :=
  [0; 0; 0; 0] ++ dst ++ repeat 0 (n - 10).

Definition absent : hwsim_tx_rate := {| idx := -1; count := 0 |}.
Definition one_try : list hwsim_tx_rate :=
  [{| idx := 0; count := 1 |}; absent; absent; absent].
Definition two_each : list hwsim_tx_rate :=
  [{| idx := 0; count := 2 |}; {| idx := 1; count := 2 |};
   {| idx := 2; count := 2 |}; {| idx := 3; count := 2 |}].
Definition no_rate : list hwsim_tx_rate := [absent; absent; absent; absent].
Definition skip_first : list hwsim_tx_rate :=
  [{| idx := 0; count := 0 |}; {| idx := 7; count := 1 |}; absent; absent].

Definition frame_from_A (pl : list Z) (fl : Z) (ladder : list hwsim_tx_rate)
  : incoming :=
  CMD_FRAME {| ATTR_ADDR_TRANSMITTER := Some A; ATTR_FRAME := pl;
               ATTR_FLAGS := fl; ATTR_TX_INFO := ladder; ATTR_COOKIE := 77 |}.

(** A frame as [process_messages_cb] builds it for station 0. *)
Definition frame_A (pl : list Z) (fl : Z) (ladder : list hwsim_tx_rate) : frame :=
  {| expires := t0; cookie := 77; flags := fl;
     tx_rates_count := Z.of_nat (length ladder); sender := 0;
     tx_rates := ladder; data := pl |}.

(** What the stack slot of [min_expires] happens to hold. *)
Definition stack : timespec := {| tv_sec := 1; tv_nsec := 0 |}.

Definition state_of (o : outcome wmediumd) : wmediumd :=
  match o with
  | Ok c => c
  | Undefined _ => ctx0
  end.

(** A 100-byte data frame from A to B arrives at time 0 and is acknowledged
    at once; a 24-byte data frame follows 1 us later, a 24-byte management
    frame 2 us later.  All use the ladder [one_try]. *)
Definition long_data : incoming := frame_from_A (data_payload B 100) 0 one_try.
Definition short_data : incoming := frame_from_A (data_payload B 24) 0 one_try.
Definition short_mgmt : incoming := frame_from_A (mgmt_payload B 24) 0 one_try.

Definition one_queued : wmediumd :=
  Eval vm_compute in
    state_of (process_messages_cb (M := always_ack) stack t0 ctx0 long_data).
Definition two_queued : wmediumd :=
  Eval vm_compute in
    state_of (process_messages_cb (M := always_ack) stack (usec 1) one_queued
                short_data).
Definition three_queued : wmediumd :=
  Eval vm_compute in
    state_of (process_messages_cb (M := always_ack) stack (usec 2) two_queued
                short_mgmt).

(** The timer fires and the handler reads the clock at 100 us. *)
Definition after_fire : wmediumd :=
  Eval vm_compute in state_of (timer_cb stack (usec 100) three_queued).

(** The data frame of 100 bytes with two tries on each of four rungs, and
    the frame [queue_frame] makes of it at time 0 on the data queue when the
    first attempt is acknowledged. *)
Definition four_rungs : frame := frame_A (data_payload B 100) 0 two_each.

Definition four_rungs_queued : frame :=
  {| expires := usec 194; cookie := 77; flags := 4; tx_rates_count := 4;
     sender := 0;
     tx_rates := [{| idx := 0; count := 2 |}; {| idx := 1; count := 1 |};
                  {| idx := -1; count := 255 |}; {| idx := -1; count := 255 |}];
     data := data_payload B 100 |}.

(** The management frame of 24 bytes and the frame [queue_frame] makes of
    it at time 0 on the management queue. *)
Definition mgmt_frame : frame := frame_A (mgmt_payload B 24) 0 one_try.

Definition mgmt_queued : frame :=
  {| expires := usec 90; cookie := 77; flags := 4; tx_rates_count := 4;
     sender := 0;
     tx_rates := [{| idx := 0; count := 1 |}; {| idx := -1; count := 1 |};
                  {| idx := -1; count := 255 |}; {| idx := -1; count := 255 |}];
     data := mgmt_payload B 24 |}.

(** The locals after one acknowledged attempt that took [t] microseconds
    and drew [n] values. *)
Definition one_attempt (t cw0 : Z) (n : nat) : tx_locals :=
  {| send_time := t; cw := cw0; retries := 1; is_acked := true; calls := n |}.

Definition result_of (o : outcome (frame * tx_locals)) : frame * tx_locals :=
  match o with
  | Ok p => p
  | Undefined _ => (frame_A [] 0 [], one_attempt 0 0 0)
  end.

(** The same data frame with a first rung of count 0 followed by a rung at
    the fastest rate, and with no rate at all. *)
Definition skip_first_frame : frame := frame_A (data_payload B 100) 0 skip_first.
Definition skip_first_queued : frame * tx_locals :=
  Eval vm_compute in
    result_of (queue_frame_result (M := always_ack) t0 0 (wqueue_init 15 1023)
                 skip_first_frame).

Definition no_rate_frame : frame := frame_A (data_payload B 100) 0 no_rate.
Definition no_rate_queued : frame * tx_locals :=
  Eval vm_compute in
    result_of (queue_frame_result (M := always_ack) t0 0 (wqueue_init 15 1023)
                 no_rate_frame).

(** A 10-byte payload: an 802.11 ACK control frame ([frame_control[0] =
    0xd4]) addressed to B. *)
Definition ack_payload : list Z := [212; 0; 0; 0] ++ B.
Definition short_frame : hwsim_frame_attrs :=
  {| ATTR_ADDR_TRANSMITTER := Some A; ATTR_FRAME := ack_payload;
     ATTR_FLAGS := 0; ATTR_TX_INFO := one_try; ATTR_COOKIE := 77 |}.
Definition short_queued : wmediumd :=
  Eval vm_compute in
    state_of (process_messages_cb (M := always_ack) stack t0 ctx0
                (CMD_FRAME short_frame)).

(** A data frame to B that comes in with the ACK bit already set, under the
    error model that acknowledges nothing. *)
Definition preset_ack : hwsim_frame_attrs :=
  {| ATTR_ADDR_TRANSMITTER := Some A; ATTR_FRAME := data_payload B 24;
     ATTR_FLAGS := 4; ATTR_TX_INFO := one_try; ATTR_COOKIE := 77 |}.
Definition preset_ack_queued : wmediumd :=
  Eval vm_compute in
    state_of (process_messages_cb (M := never_ack) stack t0 ctx0
                (CMD_FRAME preset_ack)).
Definition preset_ack_delivered : wmediumd :=
  Eval vm_compute in state_of (timer_cb stack (usec 1000) preset_ack_queued).

Definition queue_expiries (ctx : wmediumd) : list (list timespec * list timespec) :=
  map (fun st => (map expires (frames (mgmt_queue st)),
                  map expires (frames (data_queue st)))) (stations ctx).

End Scenario.

(** ** The event loop of [main] *)

(** What a callback reads besides the context: the monotonic clock, and the
    stack slot in which [rearm_timer] finds its local [min_expires]. *)
Record reading : Type := mk_reading {
  clock_now : timespec;
  stack_slot : timespec
}.

(** The two readiness sources of [event_dispatch]: the netlink socket, with
    the messages [nl_recvmsgs_default] hands one by one to
    [process_messages_cb], and the timer descriptor. *)
Inductive event : Type :=
| EV_SOCK (pending : list (reading * incoming))
| EV_TIMER (r : reading).

(** The context [main] builds before it enters the loop: the stations of
    the configuration with empty queues, a timer just created, nothing sent
    by the engine yet. *)
Definition main_ctx (addrs : list (list Z)) : wmediumd :=
  {| timerfd := {| tv_sec := 0; tv_nsec := 0 |};
     sock := [];
     stations := init_stations addrs;
     drand48_calls := 0 |}.

Section Loop.

Context {M : Medium}.

(** [sock_event_cb]: every pending message goes through
    [process_messages_cb]. *)
Fixpoint sock_event_cb (ctx : wmediumd) (pending : list (reading * incoming))
  : outcome wmediumd :=
  match pending with
  | [] => Ok ctx
  | (r, m) :: rest =>
      ctx1 <- process_messages_cb (stack_slot r) (clock_now r) ctx m ;;
      sock_event_cb ctx1 rest
  end.

Definition dispatch (ctx : wmediumd) (ev : event) : outcome wmediumd :=
  match ev with
  | EV_SOCK pending => sock_event_cb ctx pending
  | EV_TIMER r => timer_cb (stack_slot r) (clock_now r) ctx
  end.

(** [event_dispatch] over the events that become ready, in order. *)
Fixpoint event_dispatch (ctx : wmediumd) (evs : list event) : outcome wmediumd :=
  match evs with
  | [] => Ok ctx
  | ev :: rest =>
      ctx1 <- dispatch ctx ev ;;
      event_dispatch ctx1 rest
  end.

End Loop.

(** ** Properties of runs *)

(** A frame sits where it belongs: in a queue of the station that sent it,
    the management queue exactly when it is a management frame. *)
Definition frame_in_place (k : nat) (mgmt : bool) (f : frame) : bool :=
  Nat.eqb (sender f) k && Bool.eqb (is_management (data f)) mgmt.

Definition station_classified (k : nat) (st : station) : bool :=
  forallb (frame_in_place k true) (frames (mgmt_queue st)) &&
  forallb (frame_in_place k false) (frames (data_queue st)).

Fixpoint stations_classified (k : nat) (sts : list station) : bool :=
  match sts with
  | [] => true
  | st :: rest => station_classified k st && stations_classified (S k) rest
  end.

Definition queues_classified (ctx : wmediumd) : bool :=
  stations_classified 0 (stations ctx).

(** What never changes in a station: its address and the contention
    windows of its two queues. *)
Definition station_shape (st : station) : list Z * (Z * Z) * (Z * Z) :=
  (addr st, (cw_min (data_queue st), cw_max (data_queue st)),
   (cw_min (mgmt_queue st), cw_max (mgmt_queue st))).

Definition registry_shape (ctx : wmediumd) : list (list Z * (Z * Z) * (Z * Z)) :=
  map station_shape (stations ctx).

Definition is_tx_info (m : nl_msg) : bool :=
  match m with
  | HWSIM_CMD_TX_INFO_FRAME _ _ _ _ _ => true
  | HWSIM_CMD_FRAME _ _ _ _ => false
  end.

(** [l1] is what [l2] starts with. *)
Definition extends {A : Type} (l1 l2 : list A) : Prop :=
  exists more, l2 = l1 ++ more.

(** The queues of a station, management first. *)
Definition station_queues (st : station) : list (list frame) :=
  [frames (mgmt_queue st); frames (data_queue st)].

Definition all_queues (ctx : wmediumd) : list (list frame) :=
  flat_map station_queues (stations ctx).

(** A time whose nanosecond field is in range, as the clock gives it. *)
Definition normalised (t : timespec) : Prop :=
  0 <= tv_nsec t < 1000000000.

(** What one pass of [deliver_expired_frames_queue] at time [now] makes of
    a queue [q]: the frames at its head that had expired are gone, and the
    first frame left, if any, has not expired. *)
Definition queue_drained (now : timespec) (q q' : list frame) : Prop :=
  exists gone,
    q = gone ++ q' /\
    forallb (fun f => timespec_before (expires f) now) gone = true /\
    match q' with
    | [] => True
    | f :: _ => timespec_before (expires f) now = false
    end.

(** The frame [Scenario.four_rungs] enqueued at time 0 on the data queue
    under the error model that acknowledges nothing: all eight attempts are
    made and lost. *)
Definition four_rungs_lost : frame * tx_locals :=
  Eval vm_compute in
    Scenario.result_of
      (queue_frame_result (M := Scenario.never_ack) Scenario.t0 0
         (wqueue_init 15 1023) Scenario.four_rungs).

(** * Proofs *)

(** ** The outcome monad and checked arithmetic *)

Lemma bind_ok {A B : Type} (m : outcome A) (k : A -> outcome B) (b : B) :
  bind m k = Ok b -> exists a, m = Ok a /\ k a = Ok b.
Proof.
  destruct m as [a | why]; simpl; intros H.
  - exists a. split; [reflexivity | exact H].
  - discriminate H.
Qed.

(** Splits every hypothesis [bind m k = Ok b] into its two steps. *)
Ltac inv_bind :=
  repeat match goal with
  | H : bind _ _ = Ok _ |- _ =>
      let a := fresh "v" in
      let Ha := fresh "E" in
      apply bind_ok in H; destruct H as [a [Ha H]]
  | H : Ok _ = Ok _ |- _ => injection H as H
  | H : Undefined _ = Ok _ |- _ => discriminate H
  end.

Lemma bind_Ok_l {A B : Type} (a : A) (k : A -> outcome B) :
  bind (Ok a) k = k a.
Proof. reflexivity. Qed.

Lemma in_int_iff (z : Z) : in_int z = true <-> INT_MIN <= z <= INT_MAX.
Proof.
  unfold in_int. rewrite andb_true_iff, !Z.leb_le. tauto.
Qed.

Lemma int_of_ok (z v : Z) : int_of z = Ok v -> v = z /\ INT_MIN <= z <= INT_MAX.
Proof.
  unfold int_of. destruct (in_int z) eqn:E; intros H; [| discriminate H].
  injection H as <-. split; [reflexivity | now apply in_int_iff].
Qed.

Lemma int_of_in (z : Z) : INT_MIN <= z <= INT_MAX -> int_of z = Ok z.
Proof.
  intros H. unfold int_of. apply in_int_iff in H. now rewrite H.
Qed.

Lemma bind_int_of {B : Type} (z : Z) (k : Z -> outcome B) :
  INT_MIN <= z <= INT_MAX -> bind (int_of z) k = k z.
Proof.
  intros H. rewrite int_of_in by exact H. reflexivity.
Qed.

Lemma iadd_ok a b v : iadd a b = Ok v -> v = a + b /\ INT_MIN <= a + b <= INT_MAX.
Proof. apply int_of_ok. Qed.

Lemma isub_ok a b v : isub a b = Ok v -> v = a - b /\ INT_MIN <= a - b <= INT_MAX.
Proof. apply int_of_ok. Qed.

Lemma imul_ok a b v : imul a b = Ok v -> v = a * b /\ INT_MIN <= a * b <= INT_MAX.
Proof. apply int_of_ok. Qed.

Lemma idiv_ok a b v : idiv a b = Ok v -> v = Z.quot a b /\ b <> 0.
Proof.
  unfold idiv. destruct (b =? 0) eqn:E; intros H; [discriminate H |].
  apply int_of_ok in H. apply Z.eqb_neq in E. tauto.
Qed.

Lemma ishl_ok a n v : ishl a n = Ok v -> v = Z.shiftl a n /\ 0 <= a.
Proof.
  unfold ishl. destruct (a <? 0) eqn:E; simpl; intros H; [discriminate H |].
  destruct ((n <? 0) || (32 <=? n)); [discriminate H |].
  apply int_of_ok in H. apply Z.ltb_ge in E. tauto.
Qed.

(** Replaces the result of every checked operation by its value. *)
Ltac inv_arith :=
  repeat match goal with
  | E : iadd _ _ = Ok _ |- _ => apply iadd_ok in E; destruct E as [-> _]
  | E : isub _ _ = Ok _ |- _ => apply isub_ok in E; destruct E as [-> _]
  | E : imul _ _ = Ok _ |- _ => apply imul_ok in E; destruct E as [-> _]
  | E : idiv _ _ = Ok _ |- _ => apply idiv_ok in E; destruct E as [-> _]
  | E : ishl _ _ = Ok _ |- _ =>
      let Hs := fresh "Hshl" in apply ishl_ok in E; destruct E as [-> Hs]
  end.

(** Projections of the loop locals. *)
Ltac locals := cbn [send_time cw retries is_acked calls] in *.

Lemma int_bounds : INT_MIN = -2147483648 /\ INT_MAX = 2147483647.
Proof. split; reflexivity. Qed.

(** ** Packet durations *)

Lemma index_to_rate_ok (i r : Z) :
  index_to_rate i = Ok r -> In r index_to_rate_table /\ 0 <= i < 8.
Proof.
  unfold index_to_rate. destruct (i <? 0) eqn:E; [discriminate |].
  apply Z.ltb_ge in E.
  destruct (nth_error index_to_rate_table (Z.to_nat i)) eqn:N; [| discriminate].
  intros H. injection H as <-. split.
  - eapply nth_error_In; eassumption.
  - assert (Hl : (Z.to_nat i < length index_to_rate_table)%nat)
      by (apply nth_error_Some; congruence).
    simpl in Hl. lia.
Qed.


Lemma rate_table_range (r : Z) : In r index_to_rate_table -> 60 <= r <= 540.
Proof.
  unfold index_to_rate_table. simpl. intros H.
  repeat (destruct H as [<- | H]; [lia |]). contradiction.
Qed.

Lemma pkt_duration_ok (len rate d : Z) :
  pkt_duration len rate = Ok d -> d = pkt_duration_value len rate.
Proof.
  unfold pkt_duration, div_round, pkt_duration_value. intros H. inv_bind.
  inv_arith. reflexivity.
Qed.

(** For positive operands the quotient is the rounded-up division. *)
Lemma pkt_duration_value_ceil (len rate : Z) :
  0 <= len -> 0 < rate ->
  pkt_duration_value len rate = 24 + 4 * ((80 * len + 219) / (4 * rate)).
Proof.
  intros Hl Hr. unfold pkt_duration_value.
  rewrite Z.quot_div_nonneg by lia.
  replace ((16 + 8 * len + 6) * 10 + 4 * rate - 1)
    with ((80 * len + 219) + 1 * (4 * rate)) by ring.
  rewrite Z.div_add by lia. ring.
Qed.

Lemma pkt_duration_defined (len rate : Z) :
  0 <= len <= PKT_LEN_MAX -> 1 <= rate <= 540 ->
  pkt_duration len rate = Ok (pkt_duration_value len rate).
Proof.
  intros Hl Hr. unfold PKT_LEN_MAX in Hl.
  destruct int_bounds as [Hmin Hmax].
  assert (Hq : 0 <= (80 * len + 219) / (4 * rate) <= (80 * len + 219) / 4).
  { split.
    - apply Z.div_pos; lia.
    - apply Z.div_le_compat_l; lia. }
  assert (Hq4 : 4 * ((80 * len + 219) / 4) <= 80 * len + 219)
    by (apply Z.mul_div_le; lia).
  assert (Hv := pkt_duration_value_ceil len rate ltac:(lia) ltac:(lia)).
  assert (Hquot : Z.quot ((16 + 8 * len + 6) * 10 + 4 * rate - 1) (4 * rate)
                  = 1 + (80 * len + 219) / (4 * rate)).
  { unfold pkt_duration_value in Hv. lia. }
  unfold pkt_duration, div_round, iadd, isub, imul, idiv.
  rewrite !bind_int_of by lia.
  replace (4 * rate =? 0) with false by (symmetry; apply Z.eqb_neq; lia).
  rewrite Hquot.
  rewrite !bind_int_of by lia.
  rewrite int_of_in by lia.
  f_equal. unfold pkt_duration_value. rewrite Hquot. ring.
Qed.

Example pkt_duration_overflow :
  pkt_duration (PKT_LEN_MAX + 1) 540 = Undefined SignedOverflow.
Proof. reflexivity. Qed.

Lemma pkt_duration_value_lower (len rate : Z) :
  0 <= len -> 0 < rate -> 24 <= pkt_duration_value len rate.
Proof.
  intros Hl Hr. rewrite pkt_duration_value_ceil by lia.
  assert (0 <= (80 * len + 219) / (4 * rate)) by (apply Z.div_pos; lia).
  lia.
Qed.

Lemma pkt_duration_value_mono_len (len1 len2 rate : Z) :
  0 <= len1 -> len1 <= len2 -> 0 < rate ->
  pkt_duration_value len1 rate <= pkt_duration_value len2 rate.
Proof.
  intros H1 H2 Hr. rewrite !pkt_duration_value_ceil by lia.
  assert ((80 * len1 + 219) / (4 * rate) <= (80 * len2 + 219) / (4 * rate))
    by (apply Z.div_le_mono; lia).
  lia.
Qed.

Lemma pkt_duration_value_anti_rate (len r1 r2 : Z) :
  0 <= len -> 0 < r1 -> r1 <= r2 ->
  pkt_duration_value len r2 <= pkt_duration_value len r1.
Proof.
  intros Hl H1 H2. rewrite !pkt_duration_value_ceil by lia.
  assert ((80 * len + 219) / (4 * r2) <= (80 * len + 219) / (4 * r1))
    by (apply Z.div_le_compat_l; lia).
  lia.
Qed.

(** C4, as stated, fails: the duration is a whole number of 4 us symbols, so
    neighbouring lengths and neighbouring rates can share a duration.  At
    60 (6 Mbit/s) one byte and two bytes both last 28 us; a one-byte frame
    lasts 24 us at 480 and at 540. *)
Lemma pkt_duration_not_strict :
  ~ pkt_duration_strict_in_len /\ ~ pkt_duration_strict_in_rate.
Proof.
  split.
  - intros H.
    specialize (H 60 1 2 28 28).
    assert (28 < 28); [| lia].
    apply H; [simpl; tauto | lia | reflexivity | reflexivity].
  - intros H.
    specialize (H 1 480 540 24 24).
    assert (24 < 24); [| lia].
    apply H; [lia | simpl; tauto | simpl; tauto | lia | reflexivity | reflexivity].
Qed.

(** C4, amended: for every rate of the table [pkt_duration] is defined and
    non-decreasing in [len] over [0, PKT_LEN_MAX], and for every such
    [len >= 1] it is non-increasing in the rate. *)
Theorem pkt_duration_monotone (rate r1 r2 len1 len2 len : Z) :
  In rate index_to_rate_table ->
  0 <= len1 -> len1 <= len2 -> len2 <= PKT_LEN_MAX ->
  In r1 index_to_rate_table -> In r2 index_to_rate_table -> r1 <= r2 ->
  1 <= len <= PKT_LEN_MAX ->
  (exists d1 d2, pkt_duration len1 rate = Ok d1 /\
                 pkt_duration len2 rate = Ok d2 /\ d1 <= d2) /\
  (exists d1 d2, pkt_duration len r1 = Ok d1 /\
                 pkt_duration len r2 = Ok d2 /\ d2 <= d1).
Proof.
  intros Hr Hl1 Hl12 Hl2 Hr1 Hr2 Hr12 Hl.
  apply rate_table_range in Hr, Hr1, Hr2.
  split.
  - exists (pkt_duration_value len1 rate), (pkt_duration_value len2 rate).
    repeat split.
    + apply pkt_duration_defined; lia.
    + apply pkt_duration_defined; lia.
    + apply pkt_duration_value_mono_len; lia.
  - exists (pkt_duration_value len r1), (pkt_duration_value len r2).
    repeat split.
    + apply pkt_duration_defined; lia.
    + apply pkt_duration_defined; lia.
    + apply pkt_duration_value_anti_rate; lia.
Qed.

Lemma pkt_duration_monotone_witness :
  (exists d1 d2, pkt_duration 100 60 = Ok d1 /\
                 pkt_duration 1500 60 = Ok d2 /\ d1 <= d2) /\
  (exists d1 d2, pkt_duration 1500 60 = Ok d1 /\
                 pkt_duration 1500 540 = Ok d2 /\ d2 <= d1).
Proof.
  apply (pkt_duration_monotone 60 60 540 100 1500 1500);
    try (simpl; tauto); try (unfold PKT_LEN_MAX; lia).
Defined.

(** ** Time *)

Lemma timespec_before_iff (a b : timespec) :
  timespec_before a b = true <->
  tv_sec a < tv_sec b \/ (tv_sec a = tv_sec b /\ tv_nsec a < tv_nsec b).
Proof.
  unfold timespec_before.
  rewrite orb_true_iff, andb_true_iff, !Z.ltb_lt, Z.eqb_eq. tauto.
Qed.

Lemma timespec_not_before_iff (a b : timespec) :
  timespec_before a b = false <->
  tv_sec b < tv_sec a \/ (tv_sec a = tv_sec b /\ tv_nsec b <= tv_nsec a).
Proof.
  destruct (timespec_before a b) eqn:E.
  - apply timespec_before_iff in E. split; [discriminate | lia].
  - split; [intros _ | reflexivity].
    destruct (Z_lt_ge_dec (tv_sec b) (tv_sec a)); [now left |].
    destruct (Z.eq_dec (tv_sec a) (tv_sec b)) as [Es | Ns].
    + destruct (Z_lt_ge_dec (tv_nsec a) (tv_nsec b)) as [Hn | Hn].
      * assert (timespec_before a b = true)
          by (apply timespec_before_iff; right; split; assumption).
        congruence.
      * right. split; [assumption | lia].
    + assert (timespec_before a b = true)
        by (apply timespec_before_iff; left; lia).
      congruence.
Qed.

(** [a <= b <= c] in the order of [timespec_before]. *)
Lemma timespec_not_before_trans (a b c : timespec) :
  timespec_before b a = false -> timespec_before c b = false ->
  timespec_before c a = false.
Proof.
  rewrite !timespec_not_before_iff. lia.
Qed.

Lemma timespec_before_le_trans (a b c : timespec) :
  timespec_before b a = false -> timespec_before c a = true ->
  timespec_before c b = true.
Proof.
  rewrite timespec_not_before_iff, !timespec_before_iff. lia.
Qed.

Lemma timespec_before_irrefl (a : timespec) : timespec_before a a = false.
Proof. apply timespec_not_before_iff. lia. Qed.

(** When defined, [timespec_add_usec] adds exactly [usec] microseconds. *)
Lemma timespec_add_usec_ns (t t' : timespec) (usec : Z) :
  timespec_add_usec t usec = Ok t' -> ns_of t' = ns_of t + 1000 * usec.
Proof.
  unfold timespec_add_usec, long_of, ns_of. intros H. inv_bind.
  apply imul_ok in E. destruct E as [-> _].
  destruct (_ && _) in E0; [| discriminate E0]. injection E0 as <-.
  destruct (1000000000 <=? _) in H.
  - inv_bind.
    destruct (_ && _) in E; [| discriminate E]. injection E as <-.
    destruct (_ && _) in E0; [| discriminate E0]. injection E0 as <-.
    subst t'. cbn [tv_sec tv_nsec]. ring.
  - injection H as <-. cbn [tv_sec tv_nsec]. ring.
Qed.

(** ** The timer *)

Lemma rearm_station_heads (acc : bool * timespec) (st : station) :
  rearm_station acc st =
  fold_left visit_frame (head_of (mgmt_queue st) ++ head_of (data_queue st)) acc.
Proof.
  unfold rearm_station, head_of, list_first_entry.
  destruct (frames (mgmt_queue st)), (frames (data_queue st)); reflexivity.
Qed.

Lemma rearm_fold_heads (sts : list station) (acc : bool * timespec) :
  fold_left rearm_station sts acc = fold_left visit_frame (queue_heads sts) acc.
Proof.
  revert acc. induction sts as [| st sts IH]; intros acc; simpl.
  - reflexivity.
  - rewrite fold_left_app, <- rearm_station_heads. apply IH.
Qed.

(** The scan keeps the earliest expiry seen so far. *)
Lemma visit_fold_min (l : list frame) (b : bool) (t : timespec) :
  let r := fold_left visit_frame l (b, t) in
  (l <> [] \/ b = true -> fst r = true) /\
  ((exists f, In f l /\ expires f = snd r) \/ snd r = t) /\
  (l = [] -> snd r = t) /\
  (b = false -> l <> [] -> exists f, In f l /\ expires f = snd r) /\
  (forall g, In g l -> timespec_before (expires g) (snd r) = false) /\
  (b = true -> timespec_before t (snd r) = false).
Proof.
  revert b t. induction l as [| f l IH]; intros b t; simpl.
  - split; [intros [C | C]; [now elim C | exact C] |].
    split; [now right |].
    split; [reflexivity |].
    split; [intros _ C; now elim C |].
    split; [intros g [] |].
    intros _. apply timespec_before_irrefl.
  - assert (Hv : visit_frame (b, t) f =
                 if negb b || timespec_before (expires f) t
                 then (true, expires f) else (b, t)) by reflexivity.
    rewrite Hv. clear Hv.
    destruct (negb b || timespec_before (expires f) t) eqn:E.
    + specialize (IH true (expires f)). simpl in IH.
      destruct IH as (I1 & I2 & I3 & I4 & I5 & I6).
      assert (Hf : timespec_before (expires f)
                     (snd (fold_left visit_frame l (true, expires f))) = false)
        by (apply I6; reflexivity).
      assert (Hin : exists f0, (f = f0 \/ In f0 l) /\
                expires f0 = snd (fold_left visit_frame l (true, expires f))).
      { destruct I2 as [[g [G1 G2]] | G].
        - exists g. split; [now right | exact G2].
        - exists f. split; [now left | now rewrite G]. }
      split; [| split; [| split; [| split; [| split]]]].
      * intros _. apply I1. now right.
      * now left.
      * intros C. discriminate C.
      * intros _ _. exact Hin.
      * intros g [<- | G]; [exact Hf | now apply I5].
      * intros ->. simpl in E.
        apply timespec_before_iff in E.
        apply timespec_not_before_iff in Hf.
        apply timespec_not_before_iff. lia.
    + apply orb_false_iff in E. destruct E as [Eb Et].
      apply negb_false_iff in Eb. subst b.
      specialize (IH true t). simpl in IH.
      destruct IH as (I1 & I2 & I3 & I4 & I5 & I6).
      specialize (I6 eq_refl).
      split; [| split; [| split; [| split; [| split]]]].
      * intros _. apply I1. now right.
      * destruct I2 as [[g [G1 G2]] | G]; [left | now right].
        exists g. split; [now right | exact G2].
      * intros C. discriminate C.
      * intros C. discriminate C.
      * intros g [<- | G]; [| now apply I5].
        eapply timespec_not_before_trans; eassumption.
      * intros _. exact I6.
Qed.

(** X1: when some queue holds a frame, [rearm_timer] arms the timer to the
    earliest expiry among the queue heads: the armed value is the expiry of
    a queue head, and no queue head expires before it. *)
Lemma rearm_timer_min_head (stack_min_expires : timespec) (ctx : wmediumd) :
  queue_heads (stations ctx) <> [] ->
  (exists f, In f (queue_heads (stations ctx)) /\
             expires f = timerfd (rearm_timer stack_min_expires ctx)) /\
  (forall g, In g (queue_heads (stations ctx)) ->
             timespec_before (expires g)
               (timerfd (rearm_timer stack_min_expires ctx)) = false).
Proof.
  intros Hne. unfold rearm_timer. simpl timerfd.
  rewrite rearm_fold_heads.
  destruct (visit_fold_min (queue_heads (stations ctx)) false stack_min_expires)
    as (_ & _ & _ & I4 & I5 & _).
  split; [apply I4; [reflexivity | exact Hne] | exact I5].
Qed.

Lemma queue_heads_empty (sts : list station) :
  forallb station_empty sts = true -> queue_heads sts = [].
Proof.
  induction sts as [| st sts IH]; simpl; [reflexivity |].
  rewrite andb_true_iff. intros [Hs Hr]. rewrite (IH Hr).
  unfold station_empty in Hs. unfold head_of.
  destruct (frames (mgmt_queue st)); [| discriminate Hs].
  destruct (frames (data_queue st)); [reflexivity | discriminate Hs].
Qed.

(** When every queue is empty, [rearm_timer] passes the starting content of
    its local [min_expires] to [timerfd_settime]. *)
Lemma rearm_timer_all_empty (stack_min_expires : timespec) (ctx : wmediumd) :
  all_queues_empty ctx = true ->
  timerfd (rearm_timer stack_min_expires ctx) = stack_min_expires.
Proof.
  intros H. unfold rearm_timer. simpl timerfd.
  rewrite rearm_fold_heads, (queue_heads_empty _ H). reflexivity.
Qed.

Lemma rearm_timer_stations (stack_min_expires : timespec) (ctx : wmediumd) :
  stations (rearm_timer stack_min_expires ctx) = stations ctx.
Proof. reflexivity. Qed.

(** ** Addresses *)

Lemma memcmp_eq_defined (a b : list Z) :
  (ETH_ALEN <= length a)%nat -> (ETH_ALEN <= length b)%nat ->
  memcmp_eq a b = Ok (addr_eqb a b).
Proof.
  intros Ha Hb. unfold memcmp_eq.
  replace (length a <? ETH_ALEN)%nat with false
    by (symmetry; apply Nat.ltb_ge; exact Ha).
  replace (length b <? ETH_ALEN)%nat with false
    by (symmetry; apply Nat.ltb_ge; exact Hb).
  reflexivity.
Qed.

Lemma memcmp_eq_ok (a b : list Z) (r : bool) :
  memcmp_eq a b = Ok r -> r = addr_eqb a b.
Proof.
  unfold memcmp_eq. destruct (_ || _); [discriminate |].
  intros H. now injection H as <-.
Qed.

Lemma land_1_odd (b : Z) : negb (Z.land 1 b =? 0) = Z.odd b.
Proof.
  rewrite Z.land_comm. change 1 with (Z.ones 1).
  rewrite Z.land_ones by lia. change (2 ^ 1) with 2.
  rewrite Zmod_odd. destruct (Z.odd b); reflexivity.
Qed.

Lemma is_multicast_ether_addr_ok (a : list Z) (r : bool) :
  is_multicast_ether_addr a = Ok r -> r = multicast_bit a /\ a <> [].
Proof.
  destruct a as [| b a]; [discriminate |].
  unfold is_multicast_ether_addr, multicast_bit.
  intros H. injection H as <-. split; [apply land_1_odd | discriminate].
Qed.

Lemma is_multicast_ether_addr_defined (a : list Z) :
  a <> [] -> is_multicast_ether_addr a = Ok (multicast_bit a).
Proof.
  destruct a as [| b a]; [congruence |]. intros _.
  unfold is_multicast_ether_addr, multicast_bit. f_equal. apply land_1_odd.
Qed.

Lemma hdr_addr1_length (f : frame) :
  length (hdr_addr1 f) = (length (data f) - 4)%nat.
Proof. unfold hdr_addr1. apply length_skipn. Qed.

(** ** Delivery of one frame *)

Lemma deliver_rx_receivers (sts : list station) (src : list Z) (f : frame) :
  well_formed_addrs sts ->
  (ETH_ALEN <= length src)%nat ->
  (10 <= length (data f))%nat ->
  deliver_rx sts src (hdr_addr1 f) f =
  Ok (map (cloned_frame_to f) (receivers sts src f)).
Proof.
  intros Hwf Hsrc Hlen.
  assert (Hd : (ETH_ALEN <= length (hdr_addr1 f))%nat)
    by (rewrite hdr_addr1_length; unfold ETH_ALEN; lia).
  assert (Hne : hdr_addr1 f <> [])
    by (intros C; rewrite C in Hd; unfold ETH_ALEN in Hd; simpl in Hd; lia).
  induction Hwf as [| st sts Hst Hwf IH]; [reflexivity |].
  simpl deliver_rx. unfold receivers. simpl filter. fold (receivers sts src f).
  rewrite memcmp_eq_defined by (rewrite ?Hst; auto).
  simpl bind.
  destruct (addr_eqb src (addr st)); simpl negb; simpl andb.
  - exact IH.
  - rewrite is_multicast_ether_addr_defined by exact Hne. simpl bind.
    destruct (multicast_bit (hdr_addr1 f)); simpl orb.
    + simpl bind. rewrite IH. reflexivity.
    + rewrite memcmp_eq_defined by (rewrite ?Hst; auto). simpl bind.
      rewrite IH. simpl bind.
      destruct (addr_eqb (hdr_addr1 f) (addr st)); reflexivity.
Qed.

Lemma deliver_frame_eq (sts : list station) (f : frame) (s : station) :
  nth_error sts (sender f) = Some s ->
  well_formed_addrs sts ->
  (10 <= length (data f))%nat ->
  deliver_frame sts f =
  Ok ((if ack_flag_set (flags f)
       then map (cloned_frame_to f) (receivers sts (addr s) f)
       else [])
      ++ [tx_info_of (addr s) f]).
Proof.
  intros Hs Hwf Hlen. unfold deliver_frame, nth_station. rewrite Hs. simpl bind.
  assert (Hsl : length (addr s) = ETH_ALEN).
  { unfold well_formed_addrs in Hwf. rewrite Forall_forall in Hwf.
    apply Hwf. eapply nth_error_In. exact Hs. }
  unfold ack_flag_set.
  destruct (negb (Z.land (flags f) HWSIM_TX_STAT_ACK =? 0)).
  - rewrite deliver_rx_receivers by (rewrite ?Hsl; auto). reflexivity.
  - reflexivity.
Qed.

(** Whatever the frame, [deliver_frame] ends with the tx-info message, and
    what precedes it is the output of the receiver loop when the ACK flag is
    set, nothing otherwise. *)
Lemma deliver_frame_ok (sts : list station) (f : frame) (msgs : list nl_msg) :
  deliver_frame sts f = Ok msgs ->
  exists s clones,
    nth_error sts (sender f) = Some s /\
    msgs = clones ++ [tx_info_of (addr s) f] /\
    (if ack_flag_set (flags f)
     then deliver_rx sts (addr s) (hdr_addr1 f) f = Ok clones
     else clones = []).
Proof.
  unfold deliver_frame, nth_station. intros H. inv_bind.
  destruct (nth_error sts (sender f)) as [s |] eqn:Hs; [| discriminate E].
  injection E as <-. exists s, v0. split; [reflexivity |].
  split; [now subst msgs |].
  unfold ack_flag_set.
  destruct (negb (Z.land (flags f) HWSIM_TX_STAT_ACK =? 0)).
  - exact E0.
  - now injection E0 as <-.
Qed.

(** The receiver loop never sends to an address equal to the sender's. *)
Lemma deliver_rx_not_sender (sts : list station) (src dest : list Z) (f : frame)
    (out : list nl_msg) :
  deliver_rx sts src dest f = Ok out ->
  forallb (fun m => negb (is_cloned_frame_to src m)) out = true.
Proof.
  revert out. induction sts as [| st sts IH]; intros out H; simpl in H.
  - now injection H as <-.
  - inv_bind. destruct v eqn:Ev.
    + now apply IH.
    + inv_bind. subst out.
      apply memcmp_eq_ok in E. specialize (IH _ E2).
      destruct v1; [| exact IH].
      simpl. rewrite <- E. exact IH.
Qed.

(** C7: delivery of one frame.  With the ACK flag set a cloned frame goes,
    in registry order, to exactly the stations whose address differs from
    the sender's and equals [addr1], or to all of those when [addr1] is
    multicast, each with rx-rate index 1 and signal -50; in every case one
    tx-info message to the sender follows, carrying the frame's flags, its
    ladder and its cookie.  (The header fields read lie inside the payload
    when it holds at least 10 bytes.) *)
Theorem deliver_frame_messages (sts : list station) (f : frame) (s : station) :
  nth_error sts (sender f) = Some s ->
  well_formed_addrs sts ->
  (10 <= length (data f))%nat ->
  deliver_frame sts f =
  Ok ((if ack_flag_set (flags f)
       then map (fun st => HWSIM_CMD_FRAME (addr st) (data f) 1 (u32 (-50)))
                (filter (fun st =>
                           negb (addr_eqb (addr s) (addr st)) &&
                           (multicast_bit (hdr_addr1 f) ||
                            addr_eqb (hdr_addr1 f) (addr st)))
                        sts)
       else [])
      ++ [HWSIM_CMD_TX_INFO_FRAME (addr s) (flags f) 35 (tx_rates f) (cookie f)]).
Proof.
  intros Hs Hwf Hlen. exact (deliver_frame_eq sts f s Hs Hwf Hlen).
Qed.

Lemma deliver_frame_messages_witness :
  deliver_frame (init_stations [Scenario.A; Scenario.B])
    (Scenario.frame_A (Scenario.data_payload Scenario.B 24) 4 Scenario.one_try)
  = Ok [HWSIM_CMD_FRAME Scenario.B (Scenario.data_payload Scenario.B 24) 1
          (u32 (-50));
        HWSIM_CMD_TX_INFO_FRAME Scenario.A 4 35 Scenario.one_try 77].
Proof.
  apply (deliver_frame_messages (init_stations [Scenario.A; Scenario.B])
           (Scenario.frame_A (Scenario.data_payload Scenario.B 24) 4
              Scenario.one_try)
           {| addr := Scenario.A; data_queue := wqueue_init 15 1023;
              mgmt_queue := wqueue_init 3 7 |}).
  - reflexivity.
  - repeat constructor.
  - simpl. lia.
Defined.

(** ** Draining the queues *)

Lemma expires_sorted_tail (a : frame) (q : list frame) :
  expires_sorted (a :: q) = true -> expires_sorted q = true.
Proof.
  destruct q as [| b q]; [reflexivity |].
  simpl. rewrite andb_true_iff. tauto.
Qed.

Lemma expires_sorted_head (a : frame) (q : list frame) :
  expires_sorted (a :: q) = true ->
  forall f, In f q -> timespec_before (expires f) (expires a) = false.
Proof.
  revert a. induction q as [| b q IH]; intros a Hs f Hin; [destruct Hin |].
  assert (Hab : timespec_before (expires b) (expires a) = false).
  { simpl in Hs. apply andb_true_iff in Hs. destruct Hs as [Hs _].
    now apply negb_true_iff in Hs. }
  destruct Hin as [<- | Hin]; [exact Hab |].
  apply (timespec_not_before_trans _ (expires b)).
  - exact Hab.
  - apply IH; [eapply expires_sorted_tail; exact Hs | exact Hin].
Qed.

(** What [deliver_expired_frames_queue] keeps is a suffix of the queue, and
    the head of what it keeps has not expired. *)
Lemma deliver_queue_kept (sts : list station) (now : timespec)
    (q kept : list frame) (out : list nl_msg) :
  deliver_expired_frames_queue sts q now = Ok (kept, out) ->
  (exists gone, q = gone ++ kept /\
                forallb (fun f => timespec_before (expires f) now) gone = true) /\
  match kept with
  | [] => True
  | f :: _ => timespec_before (expires f) now = false
  end.
Proof.
  revert kept out. induction q as [| a q IH]; intros kept out H; simpl in H.
  - injection H as <- <-. split; [exists []; split; reflexivity | exact I].
  - destruct (timespec_before (expires a) now) eqn:Ea.
    + inv_bind. destruct v0 as [k o]. injection H as <- <-.
      destruct (IH _ _ E0) as [[gone [Hq Hg]] Hk].
      split; [| exact Hk].
      exists (a :: gone). split; [now rewrite Hq | simpl; now rewrite Ea, Hg].
    + injection H as <- <-. split; [| exact Ea].
      exists []. split; reflexivity.
Qed.

(** On a queue in expiry order nothing expired is kept. *)
Lemma deliver_queue_drains_sorted (sts : list station) (now : timespec)
    (q kept : list frame) (out : list nl_msg) :
  expires_sorted q = true ->
  deliver_expired_frames_queue sts q now = Ok (kept, out) ->
  forall f, In f kept -> timespec_before (expires f) now = false.
Proof.
  intros Hs H. destruct (deliver_queue_kept _ _ _ _ _ H) as [[gone [Hq _]] Hk].
  assert (Hks : expires_sorted kept = true).
  { clear H Hk. subst q. induction gone as [| g gone IH]; [exact Hs |].
    apply IH. eapply expires_sorted_tail. exact Hs. }
  destruct kept as [| a kept]; intros f Hin; [destruct Hin |].
  destruct Hin as [<- | Hin]; [exact Hk |].
  destruct (timespec_before (expires f) now) eqn:Ef; [| reflexivity].
  assert (Ha : timespec_before (expires a) now = true).
  { apply timespec_before_iff.
    apply timespec_before_iff in Ef.
    apply (expires_sorted_head _ _ Hks) in Hin.
    apply timespec_not_before_iff in Hin. lia. }
  congruence.
Qed.

Lemma deliver_loop_drains_sorted (sts todo todo' : list station)
    (now : timespec) (out : list nl_msg) :
  forallb station_sorted todo = true ->
  deliver_expired_frames_loop sts now todo = Ok (todo', out) ->
  forall f, In f (flat_map station_frames todo') ->
            timespec_before (expires f) now = false.
Proof.
  revert todo' out. induction todo as [| st todo IH]; intros todo' out Hs H;
    simpl in H.
  - injection H as <- <-. intros f [].
  - simpl in Hs. apply andb_true_iff in Hs. destruct Hs as [Hst Hs].
    unfold station_sorted in Hst. apply andb_true_iff in Hst.
    destruct Hst as [Hm Hd].
    inv_bind. destruct v as [st' o1]. inv_bind. destruct v as [rest' o2].
    injection H as <- <-.
    unfold deliver_expired_frames_station in E. inv_bind.
    destruct v as [mq om]. inv_bind. destruct v as [dq od].
    injection E as <- <-.
    intros f Hin. simpl in Hin. unfold station_frames in Hin at 1.
    simpl in Hin. rewrite !in_app_iff in Hin.
    destruct Hin as [[Hin | Hin] | Hin].
    + eapply deliver_queue_drains_sorted; [exact Hm | eassumption | exact Hin].
    + eapply deliver_queue_drains_sorted; [exact Hd | eassumption | exact Hin].
    + eapply IH; [exact Hs | eassumption | exact Hin].
Qed.

(** X2: one run of the timer handler removes every expired frame when all
    queues are in expiry order. *)
Lemma timer_cb_drains_sorted (stack_min_expires now : timespec)
    (ctx ctx' : wmediumd) :
  all_queues_sorted ctx = true ->
  timer_cb stack_min_expires now ctx = Ok ctx' ->
  forall f, In f (queued_frames ctx') ->
            timespec_before (expires f) now = false.
Proof.
  intros Hs H. unfold timer_cb, deliver_expired_frames in H. inv_bind.
  destruct v0 as [sts' out]. injection E as <-. subst ctx'.
  unfold queued_frames. rewrite rearm_timer_stations. simpl stations.
  eapply deliver_loop_drains_sorted; [exact Hs | exact E0].
Qed.

(** ** Failing runs of the scheduler *)

(** C1 fails on the code: [queue_frame] sets [expires] to [now + send_time]
    and never looks at the frame ahead in the queue, although its comment
    says the expiration time of the previous frame is added.  A 100-byte
    data frame queued at time 0 expires at 194 us; a 24-byte data frame
    queued behind it 1 us later expires at 91 us. *)
Theorem queue_frame_breaks_expiry_order :
  process_messages_cb (M := Scenario.always_ack) Scenario.stack Scenario.t0
    Scenario.ctx0 Scenario.long_data = Ok Scenario.one_queued /\
  all_queues_sorted Scenario.one_queued = true /\
  process_messages_cb (M := Scenario.always_ack) Scenario.stack
    (Scenario.usec 1) Scenario.one_queued Scenario.short_data
    = Ok Scenario.two_queued /\
  Scenario.queue_expiries Scenario.two_queued
    = [([], [Scenario.usec 194; Scenario.usec 91]); ([], [])] /\
  all_queues_sorted Scenario.two_queued = false.
Proof.
  split; [vm_compute; reflexivity |].
  split; [vm_compute; reflexivity |].
  split; [vm_compute; reflexivity |].
  split; vm_compute; reflexivity.
Qed.

(** C2 fails on the code when the last frame has been delivered:
    [rearm_timer] raises [set_min_expires] only when it meets a frame, but
    copies [min_expires] into [it_value] in every case, so with all queues
    empty the timer is set to whatever the uninitialised local holds and is
    disarmed only if that happens to be zero. *)
Theorem timer_armed_with_empty_queues :
  (forall stack_min_expires : timespec,
     exists ctx',
       timer_cb stack_min_expires (Scenario.usec 200) Scenario.one_queued
         = Ok ctx' /\
       all_queues_empty ctx' = true /\
       timerfd ctx' = stack_min_expires) /\
  (exists ctx',
     timer_cb Scenario.stack (Scenario.usec 200) Scenario.one_queued = Ok ctx' /\
     all_queues_empty ctx' = true /\
     disarmed (timerfd ctx') = false).
Proof.
  split.
  - intros stack_min_expires. unfold timer_cb.
    destruct (deliver_expired_frames (Scenario.usec 200) Scenario.one_queued)
      as [c | why] eqn:E; vm_compute in E; [| discriminate E].
    injection E as <-. simpl bind. eexists. split; [reflexivity |].
    split; [reflexivity |].
    apply rearm_timer_all_empty. reflexivity.
  - eexists. split; [vm_compute; reflexivity |].
    split; reflexivity.
Qed.

(** C8 fails on the code, through the defect of C1:
    [deliver_expired_frames_queue] stops at the first frame that has not
    expired, and the frames behind it may have.  With the two data frames
    above queued and a management frame due at 92 us, the timer is armed
    for 92 us; the handler running at 100 us delivers the management frame
    and leaves the data frame due at 91 us in its queue. *)
Theorem timer_cb_leaves_expired_frame :
  process_messages_cb (M := Scenario.always_ack) Scenario.stack
    (Scenario.usec 2) Scenario.two_queued Scenario.short_mgmt
    = Ok Scenario.three_queued /\
  Scenario.queue_expiries Scenario.three_queued
    = [([Scenario.usec 92], [Scenario.usec 194; Scenario.usec 91]); ([], [])] /\
  timerfd Scenario.three_queued = Scenario.usec 92 /\
  timer_cb Scenario.stack (Scenario.usec 100) Scenario.three_queued
    = Ok Scenario.after_fire /\
  Scenario.queue_expiries Scenario.after_fire
    = [([], [Scenario.usec 194; Scenario.usec 91]); ([], [])] /\
  existsb (fun f => timespec_before (expires f) (Scenario.usec 100))
          (queued_frames Scenario.after_fire) = true.
Proof.
  split; [vm_compute; reflexivity |].
  split; [vm_compute; reflexivity |].
  split; [vm_compute; reflexivity |].
  split; [vm_compute; reflexivity |].
  split; vm_compute; reflexivity.
Qed.

(** ** The send-time loops *)

Section SendTime.

Context {M : Medium}.

Lemma tx_attempts_S (queue_cw_max len rate_idx ack_time_usec : Z)
    (error_prob : double) (noack : bool) (n : nat) (j : Z) (loc : tx_locals) :
  tx_attempts queue_cw_max len rate_idx ack_time_usec error_prob noack (S n) j loc =
  (rate <- index_to_rate rate_idx ;;
   d <- pkt_duration len rate ;;
   t <- iadd difs d ;;
   send_time1 <- iadd (send_time loc) t ;;
   let retries1 := retries loc + 1 in
   if noack then
     Ok (j, {| send_time := send_time1; cw := cw loc; retries := retries1;
               is_acked := true; calls := calls loc |})
   else
     '(send_time2, cw2) <-
       (if 0 <? j then
          p <- imul (cw loc) slot_time ;;
          h <- idiv p 2 ;;
          s <- iadd send_time1 h ;;
          c <- ishl (cw loc) 1 ;;
          c1 <- iadd c 1 ;;
          Ok (s, if queue_cw_max <? c1 then queue_cw_max else c1)
        else Ok (send_time1, cw loc)) ;;
     let choice := drand48 (calls loc) in
     if double_gt choice error_prob then
       Ok (j, {| send_time := send_time2; cw := cw2; retries := retries1;
                 is_acked := true; calls := S (calls loc) |})
     else
       send_time3 <- iadd send_time2 ack_time_usec ;;
       tx_attempts queue_cw_max len rate_idx ack_time_usec error_prob noack
         n (j + 1)
         {| send_time := send_time3; cw := cw2; retries := retries1;
            is_acked := false; calls := S (calls loc) |})%outcome.
Proof. reflexivity. Qed.

(** One turn of the inner loop, case by case. *)
Lemma tx_attempts_step (queue_cw_max len rate_idx ack_time_usec : Z)
    (error_prob : double) (noack : bool) (n : nat) (j j' : Z)
    (loc loc' : tx_locals) :
  tx_attempts queue_cw_max len rate_idx ack_time_usec error_prob noack (S n) j loc
    = Ok (j', loc') ->
  exists rate d,
    index_to_rate rate_idx = Ok rate /\
    pkt_duration len rate = Ok d /\
    ((noack = true /\ j' = j /\
      loc' = {| send_time := send_time loc + (difs + d); cw := cw loc;
                retries := retries loc + 1; is_acked := true;
                calls := calls loc |}) \/
     (noack = false /\
      exists s2 cw2,
        backoff_step queue_cw_max j (cw loc) (send_time loc + (difs + d)) s2 cw2 /\
        ((double_gt (drand48 (calls loc)) error_prob = true /\ j' = j /\
          loc' = {| send_time := s2; cw := cw2; retries := retries loc + 1;
                    is_acked := true; calls := S (calls loc) |}) \/
         (double_gt (drand48 (calls loc)) error_prob = false /\
          tx_attempts queue_cw_max len rate_idx ack_time_usec error_prob noack
            n (j + 1)
            {| send_time := s2 + ack_time_usec; cw := cw2;
               retries := retries loc + 1; is_acked := false;
               calls := S (calls loc) |} = Ok (j', loc'))))).
Proof.
  rewrite tx_attempts_S. intros H. inv_bind.
  rename v into rate, v0 into d.
  exists rate, d. split; [assumption |]. split; [assumption |].
  inv_arith. cbv zeta in H.
  destruct noack.
  - left. injection H as <- <-. repeat split.
  - right. split; [reflexivity |]. inv_bind.
    match goal with v : (Z * Z)%type |- _ => destruct v as [s2 cw2] end.
    exists s2, cw2. split.
    + destruct (0 <? j) eqn:Ej.
      * right. apply Z.ltb_lt in Ej. inv_bind. inv_arith. subst s2 cw2.
        rewrite Z.shiftl_mul_pow2 by lia. change (2 ^ 1) with 2.
        replace (cw loc * 2 + 1) with (2 * cw loc + 1) by ring.
        repeat split; assumption.
      * left. apply Z.ltb_ge in Ej. inv_bind. subst s2 cw2.
        repeat split. exact Ej.
    + destruct (double_gt (drand48 (calls loc)) error_prob).
      * left. injection H as <- <-. repeat split.
      * right. split; [reflexivity |]. inv_bind. inv_arith. exact H.
Qed.

Lemma backoff_step_grows (queue_cw_max j cw0 s1 s2 cw2 : Z) :
  backoff_step queue_cw_max j cw0 s1 s2 cw2 -> s1 <= s2.
Proof.
  intros [(_ & -> & _) | (_ & Hcw & -> & _)]; [lia |].
  assert (0 <= Z.quot (cw0 * slot_time) 2)
    by (apply Z.quot_pos; unfold slot_time; lia).
  lia.
Qed.

Lemma pkt_duration_lower (len rate d : Z) :
  0 <= len -> In rate index_to_rate_table ->
  pkt_duration len rate = Ok d -> 24 <= d.
Proof.
  intros Hl Hr H. apply pkt_duration_ok in H. subst d.
  apply rate_table_range in Hr.
  apply pkt_duration_value_lower; lia.
Qed.

(** The inner loop never takes time back. *)
Lemma tx_attempts_send_time (queue_cw_max len rate_idx ack_time_usec : Z)
    (error_prob : double) (noack : bool) (n : nat) (j j' : Z)
    (loc loc' : tx_locals) :
  0 <= len -> 0 <= ack_time_usec ->
  tx_attempts queue_cw_max len rate_idx ack_time_usec error_prob noack n j loc
    = Ok (j', loc') ->
  send_time loc <= send_time loc'.
Proof.
  intros Hl Ha. revert j loc. induction n as [| n IH]; intros j loc H.
  - simpl in H. injection H as <- <-. lia.
  - apply tx_attempts_step in H.
    destruct H as (rate & d & Hr & Hd & H).
    apply index_to_rate_ok in Hr. destruct Hr as [Hr _].
    assert (24 <= d) by exact (pkt_duration_lower len rate d Hl Hr Hd).
    unfold difs, slot_time, sifs in *.
    destruct H as [(_ & _ & ->) | (_ & s2 & cw2 & Hb & H)]; [locals; lia |].
    apply backoff_step_grows in Hb.
    destruct H as [(_ & _ & ->) | (_ & H)]; [locals; lia |].
    apply IH in H. locals. lia.
Qed.

(** The first attempt of a rung costs [difs] and one packet duration. *)
Lemma tx_attempts_first (queue_cw_max len rate_idx ack_time_usec : Z)
    (error_prob : double) (noack : bool) (n : nat) (j j' : Z)
    (loc loc' : tx_locals) :
  0 <= len -> 0 <= ack_time_usec ->
  tx_attempts queue_cw_max len rate_idx ack_time_usec error_prob noack (S n) j loc
    = Ok (j', loc') ->
  exists rate d,
    index_to_rate rate_idx = Ok rate /\
    pkt_duration len rate = Ok d /\
    send_time loc + (difs + d) <= send_time loc'.
Proof.
  intros Hl Ha H. apply tx_attempts_step in H.
  destruct H as (rate & d & Hr & Hd & H).
  exists rate, d. split; [exact Hr |]. split; [exact Hd |].
  destruct H as [(_ & _ & ->) | (_ & s2 & cw2 & Hb & H)]; [locals; lia |].
  apply backoff_step_grows in Hb.
  destruct H as [(_ & _ & ->) | (_ & H)]; [locals; lia |].
  apply tx_attempts_send_time in H; [| assumption | assumption].
  locals. lia.
Qed.

(** Where the inner loop stops, and how many attempts it made. *)
Lemma tx_attempts_position (queue_cw_max len rate_idx ack_time_usec : Z)
    (error_prob : double) (noack : bool) (n : nat) (j j' : Z)
    (loc loc' : tx_locals) :
  is_acked loc = false ->
  tx_attempts queue_cw_max len rate_idx ack_time_usec error_prob noack n j loc
    = Ok (j', loc') ->
  if is_acked loc'
  then j <= j' < j + Z.of_nat n /\ retries loc' = retries loc + (j' - j) + 1
  else j' = j + Z.of_nat n /\ retries loc' = retries loc + Z.of_nat n.
Proof.
  revert j loc. induction n as [| n IH]; intros j loc Hna H.
  - simpl in H. injection H as <- <-. rewrite Hna. lia.
  - apply tx_attempts_step in H.
    destruct H as (rate & d & _ & _ & H).
    destruct H as [(_ & -> & ->) | (_ & s2 & cw2 & _ & H)]; [locals; lia |].
    destruct H as [(_ & -> & ->) | (_ & H)]; [locals; lia |].
    apply IH in H; [| reflexivity]. locals.
    destruct (is_acked loc'); lia.
Qed.

(** A frame that expects no acknowledgement is done after one attempt. *)
Lemma tx_attempts_noack (queue_cw_max len rate_idx ack_time_usec : Z)
    (error_prob : double) (n : nat) (j j' : Z) (loc loc' : tx_locals) :
  tx_attempts queue_cw_max len rate_idx ack_time_usec error_prob true (S n) j loc
    = Ok (j', loc') ->
  j' = j /\ is_acked loc' = true /\ retries loc' = retries loc + 1 /\
  calls loc' = calls loc.
Proof.
  intros H. apply tx_attempts_step in H.
  destruct H as (rate & d & _ & _ & H).
  destruct H as [(_ & -> & ->) | (C & _)]; [| discriminate C].
  repeat split.
Qed.

Lemma tx_rungs_acked (queue_cw_max len ack_time_usec : Z) (noack : bool)
    (ladder : list hwsim_tx_rate) (fuel i : nat) (j : Z) (loc : tx_locals) :
  is_acked loc = true ->
  tx_rungs queue_cw_max len ack_time_usec noack ladder fuel i j loc
    = Ok (i, j, loc).
Proof.
  intros H. destruct fuel; simpl; [reflexivity | now rewrite H].
Qed.

(** One turn of the outer loop on a rung that is not acknowledged yet. *)
Lemma tx_rungs_step (queue_cw_max len ack_time_usec : Z) (noack : bool)
    (ladder : list hwsim_tx_rate) (fuel i i' : nat) (j j' : Z)
    (loc loc' : tx_locals) :
  is_acked loc = false ->
  tx_rungs queue_cw_max len ack_time_usec noack ladder (S fuel) i j loc
    = Ok (i', j', loc') ->
  exists rung,
    nth_error ladder i = Some rung /\
    ((idx rung < 0 /\ i' = i /\ j' = j /\ loc' = loc) \/
     (0 <= idx rung /\
      exists j1 loc1,
        tx_attempts queue_cw_max len (idx rung) ack_time_usec
          (get_error_prob (double_of_int 15) (idx rung) len) noack
          (Z.to_nat (count rung)) 0 loc = Ok (j1, loc1) /\
        tx_rungs queue_cw_max len ack_time_usec noack ladder fuel (S i) j1 loc1
          = Ok (i', j', loc'))).
Proof.
  intros Hna H. simpl in H. rewrite Hna in H. inv_bind.
  rename v into rung. exists rung. split.
  - unfold read_rung in E. destruct (nth_error ladder i); [| destruct (_ <? _)%nat; discriminate E].
    now injection E as <-.
  - destruct (idx rung <? 0) eqn:Ei.
    + left. apply Z.ltb_lt in Ei. injection H as <- <- <-. repeat split. exact Ei.
    + right. apply Z.ltb_ge in Ei. split; [exact Ei |].
      inv_bind. destruct v as [j1 loc1]. exists j1, loc1. split; assumption.
Qed.

Lemma tx_rungs_send_time (queue_cw_max len ack_time_usec : Z) (noack : bool)
    (ladder : list hwsim_tx_rate) (fuel i i' : nat) (j j' : Z)
    (loc loc' : tx_locals) :
  0 <= len -> 0 <= ack_time_usec ->
  tx_rungs queue_cw_max len ack_time_usec noack ladder fuel i j loc
    = Ok (i', j', loc') ->
  send_time loc <= send_time loc'.
Proof.
  intros Hl Ha. revert i j loc. induction fuel as [| fuel IH]; intros i j loc H.
  - simpl in H. injection H as <- <- <-. lia.
  - destruct (is_acked loc) eqn:Hacked.
    + rewrite tx_rungs_acked in H by exact Hacked. injection H as <- <- <-. lia.
    + apply tx_rungs_step in H; [| exact Hacked].
      destruct H as (rung & _ & [(_ & _ & _ & ->) | (_ & j1 & loc1 & H1 & H2)]);
        [lia |].
      apply tx_attempts_send_time in H1; [| assumption | assumption].
      apply IH in H2. lia.
Qed.

(** Where the loops stop on an acknowledgement: the outer index has moved
    one past the rung [r] on which the attempt [j'] succeeded. *)
Lemma tx_rungs_acked_position (queue_cw_max len ack_time_usec : Z)
    (noack : bool) (ladder : list hwsim_tx_rate) (fuel i i' : nat) (j j' : Z)
    (loc loc' : tx_locals) :
  is_acked loc = false ->
  tx_rungs queue_cw_max len ack_time_usec noack ladder fuel i j loc
    = Ok (i', j', loc') ->
  is_acked loc' = true ->
  exists r rung,
    i' = S r /\ (i <= r < i + fuel)%nat /\
    nth_error ladder r = Some rung /\ 0 <= idx rung /\ 0 <= j' < count rung.
Proof.
  revert i j loc. induction fuel as [| fuel IH]; intros i j loc Hna H Hacked.
  - simpl in H. injection H as <- <- <-. congruence.
  - apply tx_rungs_step in H; [| exact Hna].
    destruct H as (rung & Hr & [(_ & _ & _ & ->) | (Hi & j1 & loc1 & H1 & H2)]);
      [congruence |].
    pose proof (tx_attempts_position _ _ _ _ _ _ _ _ _ _ _ Hna H1) as Hp.
    destruct (is_acked loc1) eqn:Ha1.
    + rewrite tx_rungs_acked in H2 by exact Ha1. injection H2 as <- <- <-.
      exists i, rung. repeat split; try lia; try assumption.
    + destruct (IH _ _ _ Ha1 H2 Hacked) as (r & rung' & -> & Hrange & Hrest).
      exists r, rung'. repeat split; try tauto; lia.
Qed.

(** The loops change nothing when they end without acknowledgement on the
    way in; with a present first rung of positive count the first attempt is
    always paid for. *)
Lemma tx_rungs_first (queue_cw_max len ack_time_usec : Z) (noack : bool)
    (ladder : list hwsim_tx_rate) (fuel i i' : nat) (j j' : Z)
    (loc loc' : tx_locals) (r0 : hwsim_tx_rate) :
  0 <= len -> 0 <= ack_time_usec ->
  is_acked loc = false ->
  nth_error ladder i = Some r0 -> 0 <= idx r0 -> 1 <= count r0 ->
  tx_rungs queue_cw_max len ack_time_usec noack ladder (S fuel) i j loc
    = Ok (i', j', loc') ->
  exists rate d,
    index_to_rate (idx r0) = Ok rate /\
    pkt_duration len rate = Ok d /\
    send_time loc + (difs + d) <= send_time loc'.
Proof.
  intros Hl Ha Hna Hr0 Hi Hc H.
  apply tx_rungs_step in H; [| exact Hna].
  destruct H as (rung & Hr & H). rewrite Hr0 in Hr. injection Hr as <-.
  destruct H as [(C & _) | (_ & j1 & loc1 & H1 & H2)]; [lia |].
  destruct (Z.to_nat (count r0)) as [| n] eqn:En; [lia |].
  apply tx_attempts_first in H1; [| assumption | assumption].
  destruct H1 as (rate & d & Hrate & Hd & Hs).
  exists rate, d. split; [exact Hrate |]. split; [exact Hd |].
  apply tx_rungs_send_time in H2; [| assumption | assumption]. lia.
Qed.

Lemma tx_rungs_noack (queue_cw_max len ack_time_usec : Z)
    (ladder : list hwsim_tx_rate) (fuel i i' : nat) (j j' : Z)
    (loc loc' : tx_locals) (r0 : hwsim_tx_rate) :
  is_acked loc = false ->
  nth_error ladder i = Some r0 -> 0 <= idx r0 -> 1 <= count r0 ->
  tx_rungs queue_cw_max len ack_time_usec true ladder (S fuel) i j loc
    = Ok (i', j', loc') ->
  i' = S i /\ j' = 0 /\ is_acked loc' = true /\
  retries loc' = retries loc + 1 /\ calls loc' = calls loc.
Proof.
  intros Hna Hr0 Hi Hc H.
  apply tx_rungs_step in H; [| exact Hna].
  destruct H as (rung & Hr & H). rewrite Hr0 in Hr. injection Hr as <-.
  destruct H as [(C & _) | (_ & j1 & loc1 & H1 & H2)]; [lia |].
  destruct (Z.to_nat (count r0)) as [| n] eqn:En; [lia |].
  apply tx_attempts_noack in H1. destruct H1 as (-> & Ha1 & Hret & Hcalls).
  rewrite tx_rungs_acked in H2 by exact Ha1. injection H2 as <- <- <-.
  repeat split; assumption.
Qed.

End SendTime.

(** ** Rewriting the ladder *)

Lemma read_rung_ok (l : list hwsim_tx_rate) (i : nat) (r : hwsim_tx_rate) :
  read_rung l i = Ok r -> nth_error l i = Some r.
Proof.
  unfold read_rung. destruct (nth_error l i).
  - intros H. now injection H as <-.
  - destruct (_ <? _)%nat; discriminate.
Qed.

Lemma update_rung_ok (l l' : list hwsim_tx_rate) (i : nat)
    (f : hwsim_tx_rate -> hwsim_tx_rate) :
  update_rung l i f = Ok l' ->
  length l' = length l /\
  (exists r, nth_error l i = Some r /\ nth_error l' i = Some (f r)) /\
  (forall k, k <> i -> nth_error l' k = nth_error l k).
Proof.
  unfold update_rung. intros H. inv_bind. subst l'.
  match goal with E : read_rung _ _ = Ok ?v |- _ =>
    apply read_rung_ok in E; rename v into r; rename E into Hr end.
  assert (Hi : (i < length l)%nat) by (apply nth_error_Some; congruence).
  assert (Hfl : length (firstn i l) = i) by (rewrite length_firstn; lia).
  change (match l with [] => [] | _ :: l0 => skipn i l0 end)
    with (skipn (S i) l).
  split; [| split].
  - rewrite length_app, Hfl. cbn [length]. rewrite length_skipn. lia.
  - exists r. split; [exact Hr |].
    rewrite nth_error_app2 by lia. rewrite Hfl, Nat.sub_diag. reflexivity.
  - intros k Hk. destruct (Nat.lt_ge_cases k i) as [Hlt | Hge].
    + rewrite nth_error_app1 by lia. rewrite nth_error_firstn.
      replace (k <? i)%nat with true by (symmetry; apply Nat.ltb_lt; exact Hlt).
      reflexivity.
    + rewrite nth_error_app2 by lia. rewrite Hfl.
      destruct (k - i)%nat as [| m] eqn:Em; [lia |].
      cbn [nth_error]. rewrite nth_error_skipn. f_equal. lia.
Qed.

Lemma clear_rungs_ok (fuel i : nat) (l l' : list hwsim_tx_rate) :
  clear_rungs fuel i l = Ok l' ->
  length l' = length l /\
  (forall k, (i <= k < i + fuel)%nat ->
             nth_error l' k = Some {| idx := -1; count := 255 |}) /\
  (forall k, (k < i)%nat -> nth_error l' k = nth_error l k).
Proof.
  revert i l. induction fuel as [| fuel IH]; intros i l H; simpl in H.
  - injection H as <-. split; [reflexivity |]. split; [lia | reflexivity].
  - inv_bind.
    match goal with E : update_rung _ _ _ = Ok ?v |- _ =>
      apply update_rung_ok in E; destruct E as (Hl1 & (r & _ & Hi) & Hk1);
      rename v into l1 end.
    apply IH in H. destruct H as (Hl2 & Hin & Hout).
    split; [congruence |]. split.
    + intros k Hk. destruct (Nat.eq_dec k i) as [-> | Hne].
      * rewrite Hout by lia. exact Hi.
      * apply Hin. lia.
    + intros k Hk. rewrite Hout by lia. apply Hk1. lia.
Qed.

(** The [if (is_acked)] block at post-loop index [i]: the rungs before [i]
    keep their content, the rungs after [i] are marked absent with the count
    byte [-1]. *)
Lemma rewrite_ladder_ok (l l' : list hwsim_tx_rate) (i : nat) (j : Z) :
  rewrite_ladder l i j = Ok l' ->
  length l' = length l /\
  (forall k, (i < k < IEEE80211_TX_MAX_RATES)%nat ->
             nth_error l' k = Some {| idx := -1; count := 255 |}) /\
  (forall k, (k < i)%nat -> nth_error l' k = nth_error l k).
Proof.
  unfold rewrite_ladder. intros H. inv_bind.
  match goal with E : update_rung _ _ _ = Ok ?v |- _ =>
    apply update_rung_ok in E; destruct E as (Hl1 & _ & Hk1);
    rename v into l1 end.
  apply clear_rungs_ok in H. destruct H as (Hl2 & Hin & Hout).
  split; [congruence |]. split.
  - intros k Hk. apply Hin. lia.
  - intros k Hk. rewrite Hout by lia. apply Hk1. lia.
Qed.

(** Where the count goes: the rung at the post-loop index [i] keeps its
    [idx] and receives [j + 1]. *)
Lemma rewrite_ladder_count (l l' : list hwsim_tx_rate) (i : nat) (j : Z) :
  rewrite_ladder l i j = Ok l' ->
  exists r, nth_error l i = Some r /\
            nth_error l' i = Some {| idx := idx r; count := u8 (j + 1) |}.
Proof.
  unfold rewrite_ladder. intros H. inv_bind.
  match goal with E : update_rung _ _ _ = Ok ?v |- _ =>
    apply update_rung_ok in E; destruct E as (_ & (r & Hr & Hi) & _);
    rename v into l1 end.
  apply clear_rungs_ok in H. destruct H as (_ & _ & Hout).
  exists r. split; [exact Hr |]. rewrite Hout by lia. exact Hi.
Qed.

Lemma ack_flag_set_lor (fl : Z) :
  ack_flag_set (Z.lor fl HWSIM_TX_STAT_ACK) = true.
Proof.
  unfold ack_flag_set, HWSIM_TX_STAT_ACK.
  apply negb_true_iff, Z.eqb_neq. intros C.
  assert (T : Z.testbit (Z.land (Z.lor fl 4) 4) 2 = true).
  { rewrite Z.land_spec, Z.lor_spec.
    change (Z.testbit 4 2) with true. now rewrite orb_true_r. }
  rewrite C in T. discriminate T.
Qed.

(** The engine clears no bit of the flags. *)
Lemma lor_keeps_bits (fl : Z) :
  Z.land (Z.lor fl HWSIM_TX_STAT_ACK) fl = fl.
Proof.
  apply Z.bits_inj'. intros n Hn.
  rewrite Z.land_spec, Z.lor_spec.
  destruct (Z.testbit fl n); [reflexivity | apply andb_false_r].
Qed.

Lemma ack_time_value : ack_time = Ok 60.
Proof. reflexivity. Qed.

Section Enqueue.

Context {M : Medium}.

Lemma frame_is_mgmt_ok (f : frame) (b : bool) :
  frame_is_mgmt f = Ok b -> b = is_management (data f) /\ data f <> [].
Proof.
  unfold frame_is_mgmt, hdr_frame_control0, is_management.
  destruct (data f) as [| c rest]; simpl; [discriminate |].
  intros H. injection H as <-. split; [reflexivity | discriminate].
Qed.

(** What [tx_simulate] runs: the loops with [ack_time_usec = 60] and
    [noack] as the specification words it. *)
Lemma tx_simulate_ok (calls0 : nat) (queue : wqueue) (f : frame)
    (i : nat) (j : Z) (loc : tx_locals) :
  tx_simulate calls0 queue f = Ok (i, j, loc) ->
  tx_rungs (cw_max queue) (data_len f) 60
    (is_management (data f) || multicast_bit (hdr_addr1 f)) (tx_rates f)
    IEEE80211_TX_MAX_RATES 0%nat 0
    {| send_time := 0; cw := cw_min queue; retries := 0;
       is_acked := false; calls := calls0 |} = Ok (i, j, loc).
Proof.
  unfold tx_simulate. rewrite ack_time_value, bind_Ok_l.
  intros H. inv_bind.
  match goal with E : frame_is_mgmt _ = Ok _ |- _ =>
    apply frame_is_mgmt_ok in E; destruct E as [-> _] end.
  destruct (is_management (data f)).
  - inv_bind. subst. exact H.
  - match goal with E : is_multicast_ether_addr _ = Ok _ |- _ =>
      apply is_multicast_ether_addr_ok in E; destruct E as [-> _] end.
    exact H.
Qed.

(** What [queue_frame] makes of a frame. *)
Lemma queue_frame_result_ok (now : timespec) (calls0 : nat) (queue : wqueue)
    (f f' : frame) (loc : tx_locals) :
  queue_frame_result now calls0 queue f = Ok (f', loc) ->
  exists i j,
    tx_simulate calls0 queue f = Ok (i, j, loc) /\
    (if is_acked loc
     then rewrite_ladder (tx_rates f) i j = Ok (tx_rates f') /\
          flags f' = Z.lor (flags f) HWSIM_TX_STAT_ACK
     else tx_rates f' = tx_rates f /\ flags f' = flags f) /\
    timespec_add_usec now (send_time loc) = Ok (expires f') /\
    cookie f' = cookie f /\ sender f' = sender f /\ data f' = data f.
Proof.
  unfold queue_frame_result. intros H. inv_bind.
  match goal with v : (nat * Z * tx_locals)%type |- _ =>
    destruct v as [[i j] loc0] end.
  inv_bind. subst f' loc0. exists i, j. cbn [tx_rates flags expires cookie sender data].
  split; [assumption |].
  split; [| split; [assumption | repeat split]].
  destruct (is_acked loc).
  - split; [assumption | reflexivity].
  - inv_bind. subst. split; reflexivity.
Qed.

End Enqueue.

(** ** Properties of the enqueue *)

(** C3, as stated, fails.  A frame with two tries on each of four rungs is
    acknowledged at the first attempt of the first rung (one attempt made,
    [retries = 1]): the ladder comes out as [(0,2) (1,1) (-1,255) (-1,255)].
    The cleared rungs carry the count byte [-1], not 0, and the count
    [j + 1] is not on rung 0. *)
Lemma ladder_rewrite_counterexample :
  queue_frame_result (M := Scenario.always_ack) Scenario.t0 0
    (wqueue_init 15 1023) Scenario.four_rungs
    = Ok (Scenario.four_rungs_queued, Scenario.one_attempt 194 15 1) /\
  nth_error (tx_rates Scenario.four_rungs_queued) 2
    = Some {| idx := -1; count := 255 |} /\
  ~ ladder_truncated_at 0 0 (tx_rates Scenario.four_rungs_queued).
Proof.
  split; [vm_compute; reflexivity |].
  split; [reflexivity |].
  intros [_ H]. specialize (H 2%nat {| idx := -1; count := 255 |}).
  destruct H as [_ H]; [lia | reflexivity |]. discriminate H.
Qed.

Section EnqueueProperties.

Context {M : Medium}.

(** C3, amended: when the send-time computation ends acknowledged on rung
    [r] at attempt [j] (the loops leave the outer index at [r + 1]), every
    rung after [r + 1] is rewritten to [idx = -1] with the count byte [-1]
    (255), the rungs before [r] are as received, and the ACK bit is set in
    the flags; when the ladder is exhausted without acknowledgement the
    ladder and the flags are as received. *)
Theorem ladder_rewrite_on_ack (now : timespec) (calls0 : nat) (queue : wqueue)
    (f f' : frame) (loc : tx_locals) :
  queue_frame_result now calls0 queue f = Ok (f', loc) ->
  if is_acked loc
  then exists r j rung,
         tx_simulate calls0 queue f = Ok (S r, j, loc) /\
         nth_error (tx_rates f) r = Some rung /\
         0 <= idx rung /\ 0 <= j < count rung /\
         (forall k, (S r < k < IEEE80211_TX_MAX_RATES)%nat ->
                    nth_error (tx_rates f') k = Some {| idx := -1; count := 255 |}) /\
         (forall k, (k < r)%nat ->
                    nth_error (tx_rates f') k = nth_error (tx_rates f) k) /\
         flags f' = Z.lor (flags f) HWSIM_TX_STAT_ACK /\
         ack_flag_set (flags f') = true
  else tx_rates f' = tx_rates f /\ flags f' = flags f.
Proof.
  intros H. apply queue_frame_result_ok in H.
  destruct H as (i & j & Hsim & Hrw & _).
  destruct (is_acked loc) eqn:Hacked; [| exact Hrw].
  destruct Hrw as [Hrw Hfl].
  pose proof (tx_simulate_ok _ _ _ _ _ _ Hsim) as Hloop.
  apply tx_rungs_acked_position in Hloop; [| reflexivity | exact Hacked].
  destruct Hloop as (r & rung & -> & _ & Hrung & Hidx & Hj).
  apply rewrite_ladder_ok in Hrw. destruct Hrw as (_ & Hafter & Hbefore).
  exists r, j, rung.
  split; [exact Hsim |]. split; [exact Hrung |].
  split; [exact Hidx |]. split; [exact Hj |].
  split; [exact Hafter |].
  split; [intros k Hk; apply Hbefore; lia |].
  split; [exact Hfl |].
  rewrite Hfl. apply ack_flag_set_lor.
Qed.

(** C9, amended: when the first rung of the ladder is present ([idx >= 0])
    with a count of at least 1, the expiry [queue_frame] stores is no
    earlier than [now + difs + pkt_duration(len, index_to_rate[idx])]. *)
Theorem expiry_bound_first_rung (now : timespec) (calls0 : nat) (queue : wqueue)
    (f f' : frame) (loc : tx_locals) (r0 : hwsim_tx_rate) :
  queue_frame_result now calls0 queue f = Ok (f', loc) ->
  nth_error (tx_rates f) 0 = Some r0 ->
  0 <= idx r0 -> 1 <= count r0 ->
  difs = 34 /\ expiry_lower_bound now f f'.
Proof.
  intros H Hr0 Hidx Hcount. split; [reflexivity |].
  apply queue_frame_result_ok in H.
  destruct H as (i & j & Hsim & _ & Ht & _).
  apply tx_simulate_ok in Hsim.
  change IEEE80211_TX_MAX_RATES with (S 3) in Hsim.
  apply (tx_rungs_first _ _ _ _ _ _ _ _ _ _ _ _ r0) in Hsim;
    try assumption; try reflexivity;
    [| unfold data_len; lia | lia].
  destruct Hsim as (rate & d & Hrate & Hd & Hs).
  exists r0, rate, d.
  split; [exact Hr0 |]. split; [exact Hrate |]. split; [exact Hd |].
  apply timespec_add_usec_ns in Ht. locals. lia.
Qed.

(** C6: a frame whose first rung is present with a count of at least 1 and
    which is a management frame or addressed to a multicast address is
    done after one attempt of the first rung ([retries = 1], the loops
    leave [i = 1] and [j = 0]); its ACK bit is set; and whatever the
    station list, its delivery sends no cloned frame to an address equal to
    the sender's. *)
Theorem noack_short_circuit (now : timespec) (calls0 : nat) (queue : wqueue)
    (f f' : frame) (loc : tx_locals) (r0 : hwsim_tx_rate) :
  nth_error (tx_rates f) 0 = Some r0 ->
  0 <= idx r0 -> 1 <= count r0 ->
  is_management (data f) = true \/ multicast_bit (hdr_addr1 f) = true ->
  queue_frame_result now calls0 queue f = Ok (f', loc) ->
  tx_simulate calls0 queue f = Ok (1%nat, 0, loc) /\
  retries loc = 1 /\ is_acked loc = true /\
  ack_flag_set (flags f') = true /\
  (forall sts s msgs,
     nth_error sts (sender f') = Some s ->
     deliver_frame sts f' = Ok msgs ->
     forallb (fun m => negb (is_cloned_frame_to (addr s) m)) msgs = true).
Proof.
  intros Hr0 Hidx Hcount Hnoack H. apply queue_frame_result_ok in H.
  destruct H as (i & j & Hsim & Hrw & _).
  pose proof (tx_simulate_ok _ _ _ _ _ _ Hsim) as Hloop.
  replace (is_management (data f) || multicast_bit (hdr_addr1 f)) with true
    in Hloop
    by (symmetry; apply orb_true_iff; exact Hnoack).
  change IEEE80211_TX_MAX_RATES with (S 3) in Hloop.
  apply (tx_rungs_noack _ _ _ _ _ _ _ _ _ _ _ r0) in Hloop;
    try assumption; try reflexivity.
  destruct Hloop as (-> & -> & Hacked & Hret & _). locals.
  rewrite Hacked in Hrw. destruct Hrw as [_ Hfl].
  assert (Hset : ack_flag_set (flags f') = true)
    by (rewrite Hfl; apply ack_flag_set_lor).
  split; [exact Hsim |]. split; [lia |]. split; [exact Hacked |].
  split; [exact Hset |].
  intros sts s msgs Hs Hd. apply deliver_frame_ok in Hd.
  destruct Hd as (s' & clones & Hs' & -> & Hclones).
  rewrite Hs in Hs'. injection Hs' as <-.
  rewrite Hset in Hclones. apply deliver_rx_not_sender in Hclones.
  rewrite forallb_app, Hclones. reflexivity.
Qed.

(** The count of the acknowledged rung [r] is not touched: [j + 1] lands on
    rung [r + 1], which keeps its [idx]. *)
Lemma count_stored_one_rung_late (now : timespec) (calls0 : nat) (queue : wqueue)
    (f f' : frame) (loc : tx_locals) (r : nat) (j : Z) :
  queue_frame_result now calls0 queue f = Ok (f', loc) ->
  tx_simulate calls0 queue f = Ok (S r, j, loc) ->
  is_acked loc = true ->
  nth_error (tx_rates f') r = nth_error (tx_rates f) r /\
  exists next,
    nth_error (tx_rates f) (S r) = Some next /\
    nth_error (tx_rates f') (S r)
      = Some {| idx := idx next; count := u8 (j + 1) |}.
Proof.
  intros H Hsim Hacked. apply queue_frame_result_ok in H.
  destruct H as (i & j0 & Hsim' & Hrw & _).
  rewrite Hsim in Hsim'. injection Hsim' as <- <-.
  rewrite Hacked in Hrw. destruct Hrw as [Hrw _].
  split.
  - apply rewrite_ladder_ok in Hrw. destruct Hrw as (_ & _ & Hbefore).
    apply Hbefore. lia.
  - apply rewrite_ladder_count in Hrw. exact Hrw.
Qed.

(** The expiry does not depend on the frames already in the queue: only the
    contention window bounds of the queue are read. *)
Lemma queue_frame_result_ignores_frames (now : timespec) (calls0 : nat)
    (queue : wqueue) (f : frame) :
  queue_frame_result now calls0 queue f =
  queue_frame_result now calls0 (wqueue_init (cw_min queue) (cw_max queue)) f.
Proof. reflexivity. Qed.

End EnqueueProperties.

Lemma ladder_rewrite_on_ack_witness :
  exists r j rung,
    tx_simulate (M := Scenario.always_ack) 0 (wqueue_init 15 1023)
      Scenario.four_rungs = Ok (S r, j, Scenario.one_attempt 194 15 1) /\
    nth_error (tx_rates Scenario.four_rungs) r = Some rung /\
    0 <= idx rung /\ 0 <= j < count rung /\
    (forall k, (S r < k < IEEE80211_TX_MAX_RATES)%nat ->
               nth_error (tx_rates Scenario.four_rungs_queued) k
               = Some {| idx := -1; count := 255 |}) /\
    (forall k, (k < r)%nat ->
               nth_error (tx_rates Scenario.four_rungs_queued) k
               = nth_error (tx_rates Scenario.four_rungs) k) /\
    flags Scenario.four_rungs_queued
      = Z.lor (flags Scenario.four_rungs) HWSIM_TX_STAT_ACK /\
    ack_flag_set (flags Scenario.four_rungs_queued) = true.
Proof.
  apply (ladder_rewrite_on_ack (M := Scenario.always_ack) Scenario.t0 0
           (wqueue_init 15 1023) Scenario.four_rungs
           Scenario.four_rungs_queued (Scenario.one_attempt 194 15 1)).
  vm_compute. reflexivity.
Defined.

(** C9, as stated, fails.  With a first rung of count 0 the frame goes out
    on the second rung at the fastest rate and expires 70 us after [now],
    before the 194 us that the first rung's rate would give; with no rate in
    the ladder at all it expires at [now]. *)
Lemma expiry_bound_counterexample :
  (queue_frame_result (M := Scenario.always_ack) Scenario.t0 0
     (wqueue_init 15 1023) Scenario.skip_first_frame
     = Ok Scenario.skip_first_queued /\
   expires (fst Scenario.skip_first_queued) = Scenario.usec 70 /\
   ~ expiry_lower_bound Scenario.t0 Scenario.skip_first_frame
       (fst Scenario.skip_first_queued)) /\
  (queue_frame_result (M := Scenario.always_ack) Scenario.t0 0
     (wqueue_init 15 1023) Scenario.no_rate_frame
     = Ok Scenario.no_rate_queued /\
   expires (fst Scenario.no_rate_queued) = Scenario.t0 /\
   ~ expiry_lower_bound Scenario.t0 Scenario.no_rate_frame
       (fst Scenario.no_rate_queued)).
Proof.
  split; (split; [vm_compute; reflexivity |]); (split; [reflexivity |]).
  - intros (r0 & rate & d & Hr0 & Hrate & Hd & Hle).
    injection Hr0 as <-. injection Hrate as <-.
    vm_compute in Hd. injection Hd as <-.
    vm_compute in Hle. apply Hle. reflexivity.
  - intros (r0 & rate & d & Hr0 & Hrate & _).
    injection Hr0 as <-. discriminate Hrate.
Qed.

Lemma expiry_bound_first_rung_witness :
  difs = 34 /\
  expiry_lower_bound Scenario.t0 Scenario.four_rungs Scenario.four_rungs_queued.
Proof.
  apply (expiry_bound_first_rung (M := Scenario.always_ack) Scenario.t0 0
           (wqueue_init 15 1023) Scenario.four_rungs
           Scenario.four_rungs_queued (Scenario.one_attempt 194 15 1)
           {| idx := 0; count := 2 |}).
  - vm_compute. reflexivity.
  - reflexivity.
  - simpl. lia.
  - simpl. lia.
Defined.

Lemma noack_short_circuit_witness :
  tx_simulate (M := Scenario.never_ack) 0 (wqueue_init 3 7) Scenario.mgmt_frame
    = Ok (1%nat, 0, Scenario.one_attempt 90 3 0) /\
  retries (Scenario.one_attempt 90 3 0) = 1 /\
  is_acked (Scenario.one_attempt 90 3 0) = true /\
  ack_flag_set (flags Scenario.mgmt_queued) = true /\
  (forall sts s msgs,
     nth_error sts (sender Scenario.mgmt_queued) = Some s ->
     deliver_frame sts Scenario.mgmt_queued = Ok msgs ->
     forallb (fun m => negb (is_cloned_frame_to (addr s) m)) msgs = true).
Proof.
  apply (noack_short_circuit (M := Scenario.never_ack) Scenario.t0 0
           (wqueue_init 3 7) Scenario.mgmt_frame Scenario.mgmt_queued
           (Scenario.one_attempt 90 3 0) {| idx := 0; count := 1 |}).
  - reflexivity.
  - simpl. lia.
  - simpl. lia.
  - left. reflexivity.
  - vm_compute. reflexivity.
Defined.

(** ** Ingress *)

Section Ingress.

Context {M : Medium}.

Lemma queue_frame_ok (stack_min_expires now : timespec) (ctx ctx' : wmediumd)
    (k : nat) (f : frame) :
  queue_frame stack_min_expires now ctx k f = Ok ctx' ->
  exists st f' loc,
    nth_error (stations ctx) k = Some st /\
    queue_frame_result now (drand48_calls ctx)
      (if is_management (data f) then mgmt_queue st else data_queue st) f
      = Ok (f', loc) /\
    stations ctx' =
      update_station (stations ctx) k
        (station_add_tail (is_management (data f)) f') /\
    sock ctx' = sock ctx.
Proof.
  unfold queue_frame, nth_station. intros H. inv_bind.
  match goal with E : frame_is_mgmt _ = Ok _ |- _ =>
    apply frame_is_mgmt_ok in E; destruct E as [-> _] end.
  match goal with v : (frame * tx_locals)%type |- _ => destruct v as [f' loc] end.
  inv_bind. subst ctx'.
  destruct (nth_error (stations ctx) k) as [st |] eqn:Hst;
    [| match goal with E : Undefined _ = Ok _ |- _ => discriminate E end].
  match goal with E : Ok st = Ok _ |- _ => injection E as <- end.
  exists st, f', loc. repeat split. assumption.
Qed.

(** C5, amended: [process_messages_cb] has no test on the payload length.
    A frame message leaves the state as it was exactly when it carries no
    transmitter address or one that no station has; from a registered
    transmitter the frame goes through [queue_frame] and is put, with its
    payload, at the tail of the sender's management or data queue, whatever
    the length of the payload. *)
Theorem ingress_ignores_payload_length (stack_min_expires now : timespec)
    (ctx : wmediumd) (attrs : hwsim_frame_attrs) :
  match ATTR_ADDR_TRANSMITTER attrs with
  | None =>
      process_messages_cb stack_min_expires now ctx (CMD_FRAME attrs) = Ok ctx
  | Some src =>
      match get_station_by_addr (stations ctx) src 0 with
      | Ok None =>
          process_messages_cb stack_min_expires now ctx (CMD_FRAME attrs) = Ok ctx
      | Ok (Some s) =>
          forall ctx',
            process_messages_cb stack_min_expires now ctx (CMD_FRAME attrs)
              = Ok ctx' ->
            exists st f',
              nth_error (stations ctx) s = Some st /\
              data f' = ATTR_FRAME attrs /\
              stations ctx' =
                update_station (stations ctx) s
                  (station_add_tail (is_management (ATTR_FRAME attrs)) f')
      | Undefined why =>
          process_messages_cb stack_min_expires now ctx (CMD_FRAME attrs)
            = Undefined why
      end
  end.
Proof.
  unfold process_messages_cb.
  destruct (ATTR_ADDR_TRANSMITTER attrs) as [src |]; [| reflexivity].
  destruct (get_station_by_addr (stations ctx) src 0) as [[s |] | why];
    [| reflexivity | reflexivity].
  rewrite bind_Ok_l. intros ctx' H.
  apply queue_frame_ok in H.
  destruct H as (st & f' & loc & Hst & Hres & Hsts & _).
  apply queue_frame_result_ok in Hres.
  destruct Hres as (_ & _ & _ & _ & _ & _ & _ & Hdata).
  exists st, f'. split; [exact Hst |]. split; [exact Hdata |]. exact Hsts.
Qed.

(** C10: the flags of the queued frame are the incoming flags, with the ACK
    bit set in addition when the send-time computation ended acknowledged:
    no bit is cleared.  The tx-info message carries these flags.  When the
    incoming flags have the ACK bit, delivery sends the cloned frames to all
    matching receivers, whether or not any attempt was acknowledged. *)
Theorem flags_never_cleared (stack_min_expires now : timespec)
    (ctx ctx' : wmediumd) (attrs : hwsim_frame_attrs) (src : list Z) (s : nat) :
  ATTR_ADDR_TRANSMITTER attrs = Some src ->
  get_station_by_addr (stations ctx) src 0 = Ok (Some s) ->
  process_messages_cb stack_min_expires now ctx (CMD_FRAME attrs) = Ok ctx' ->
  exists st f' loc,
    nth_error (stations ctx) s = Some st /\
    queue_frame_result now (drand48_calls ctx)
      (if is_management (ATTR_FRAME attrs) then mgmt_queue st else data_queue st)
      (frame_of_attrs attrs s) = Ok (f', loc) /\
    stations ctx' =
      update_station (stations ctx) s
        (station_add_tail (is_management (ATTR_FRAME attrs)) f') /\
    flags f' = (if is_acked loc
                then Z.lor (ATTR_FLAGS attrs) HWSIM_TX_STAT_ACK
                else ATTR_FLAGS attrs) /\
    Z.land (flags f') (ATTR_FLAGS attrs) = ATTR_FLAGS attrs /\
    (forall sts msgs,
       deliver_frame sts f' = Ok msgs ->
       exists s' clones,
         nth_error sts (sender f') = Some s' /\
         msgs = clones ++
                [HWSIM_CMD_TX_INFO_FRAME (addr s') (flags f') 35 (tx_rates f')
                   (cookie f')]) /\
    (ack_flag_set (ATTR_FLAGS attrs) = true ->
     forall sts s',
       nth_error sts (sender f') = Some s' ->
       well_formed_addrs sts ->
       (10 <= length (ATTR_FRAME attrs))%nat ->
       deliver_frame sts f' =
       Ok (map (cloned_frame_to f') (receivers sts (addr s') f') ++
           [tx_info_of (addr s') f'])).
Proof.
  intros Hsrc Hfound H. unfold process_messages_cb in H.
  rewrite Hsrc, Hfound, bind_Ok_l in H.
  apply queue_frame_ok in H. cbn [frame_of_attrs data] in H.
  destruct H as (st & f' & loc & Hst & Hres & Hsts & _).
  exists st, f', loc.
  split; [exact Hst |]. split; [exact Hres |]. split; [exact Hsts |].
  apply queue_frame_result_ok in Hres.
  destruct Hres as (i & j & _ & Hrw & _ & _ & _ & Hdata).
  cbn [frame_of_attrs flags data] in Hrw, Hdata.
  assert (Hfl : flags f' = (if is_acked loc
                            then Z.lor (ATTR_FLAGS attrs) HWSIM_TX_STAT_ACK
                            else ATTR_FLAGS attrs))
    by (destruct (is_acked loc); tauto).
  split; [exact Hfl |].
  split.
  { rewrite Hfl. destruct (is_acked loc);
      [apply lor_keeps_bits | apply Z.land_diag]. }
  split.
  { intros sts msgs Hd. apply deliver_frame_ok in Hd.
    destruct Hd as (s' & clones & Hs' & Hm & _).
    exists s', clones. split; [exact Hs' | exact Hm]. }
  intros Hack sts s' Hs' Hwf Hlen.
  rewrite (deliver_frame_eq sts f' s' Hs' Hwf) by (rewrite Hdata; exact Hlen).
  replace (ack_flag_set (flags f')) with true; [reflexivity |].
  symmetry. rewrite Hfl. destruct (is_acked loc);
    [apply ack_flag_set_lor | exact Hack].
Qed.

End Ingress.

(** C5, as stated, fails: a payload of 10 bytes, shorter than the 24-byte
    header, from station A is put on A's data queue. *)
Lemma short_payload_enqueued :
  (length (ATTR_FRAME Scenario.short_frame) < MIN_HDR_LEN)%nat /\
  process_messages_cb (M := Scenario.always_ack) Scenario.stack Scenario.t0
    Scenario.ctx0 (CMD_FRAME Scenario.short_frame)
    = Ok Scenario.short_queued /\
  Scenario.queue_expiries Scenario.ctx0 = [([], []); ([], [])] /\
  Scenario.queue_expiries Scenario.short_queued
    = [([], [Scenario.usec 74]); ([], [])] /\
  map data (queued_frames Scenario.short_queued) = [Scenario.ack_payload].
Proof.
  split; [vm_compute; lia |].
  split; [vm_compute; reflexivity |].
  split; [reflexivity |].
  split; reflexivity.
Qed.

Lemma ingress_ignores_payload_length_witness :
  exists st f',
    nth_error (stations Scenario.ctx0) 0 = Some st /\
    data f' = ATTR_FRAME Scenario.short_frame /\
    stations Scenario.short_queued =
      update_station (stations Scenario.ctx0) 0
        (station_add_tail (is_management (ATTR_FRAME Scenario.short_frame)) f').
Proof.
  apply (ingress_ignores_payload_length (M := Scenario.always_ack)
           Scenario.stack Scenario.t0 Scenario.ctx0 Scenario.short_frame
           Scenario.short_queued).
  vm_compute. reflexivity.
Defined.

(** The frame of [Scenario.preset_ack] as it is queued: every attempt
    failed, the ladder is as received, and the ACK bit it came with is still
    set. *)
Lemma flags_never_cleared_witness :
  exists st f' loc,
    nth_error (stations Scenario.ctx0) 0 = Some st /\
    queue_frame_result (M := Scenario.never_ack) Scenario.t0
      (drand48_calls Scenario.ctx0)
      (if is_management (ATTR_FRAME Scenario.preset_ack)
       then mgmt_queue st else data_queue st)
      (frame_of_attrs Scenario.preset_ack 0) = Ok (f', loc) /\
    stations Scenario.preset_ack_queued =
      update_station (stations Scenario.ctx0) 0
        (station_add_tail (is_management (ATTR_FRAME Scenario.preset_ack)) f') /\
    flags f' = (if is_acked loc
                then Z.lor (ATTR_FLAGS Scenario.preset_ack) HWSIM_TX_STAT_ACK
                else ATTR_FLAGS Scenario.preset_ack) /\
    Z.land (flags f') (ATTR_FLAGS Scenario.preset_ack)
      = ATTR_FLAGS Scenario.preset_ack /\
    (forall sts msgs,
       deliver_frame sts f' = Ok msgs ->
       exists s' clones,
         nth_error sts (sender f') = Some s' /\
         msgs = clones ++
                [HWSIM_CMD_TX_INFO_FRAME (addr s') (flags f') 35 (tx_rates f')
                   (cookie f')]) /\
    (ack_flag_set (ATTR_FLAGS Scenario.preset_ack) = true ->
     forall sts s',
       nth_error sts (sender f') = Some s' ->
       well_formed_addrs sts ->
       (10 <= length (ATTR_FRAME Scenario.preset_ack))%nat ->
       deliver_frame sts f' =
       Ok (map (cloned_frame_to f') (receivers sts (addr s') f') ++
           [tx_info_of (addr s') f'])).
Proof.
  apply (flags_never_cleared (M := Scenario.never_ack) Scenario.stack
           Scenario.t0 Scenario.ctx0 Scenario.preset_ack_queued
           Scenario.preset_ack Scenario.A 0).
  - reflexivity.
  - reflexivity.
  - vm_compute. reflexivity.
Defined.

(** The run behind it: nothing is acknowledged, yet the handler sends B
    its copy and reports the flags as they came in. *)
Lemma preset_ack_delivers_unacked_frame :
  process_messages_cb (M := Scenario.never_ack) Scenario.stack Scenario.t0
    Scenario.ctx0 (CMD_FRAME Scenario.preset_ack)
    = Ok Scenario.preset_ack_queued /\
  map tx_rates (queued_frames Scenario.preset_ack_queued) = [Scenario.one_try] /\
  timer_cb Scenario.stack (Scenario.usec 1000) Scenario.preset_ack_queued
    = Ok Scenario.preset_ack_delivered /\
  sock Scenario.preset_ack_delivered
    = [HWSIM_CMD_FRAME Scenario.B (Scenario.data_payload Scenario.B 24) 1
         (u32 (-50));
       HWSIM_CMD_TX_INFO_FRAME Scenario.A 4 35 Scenario.one_try 77].
Proof.
  split; [vm_compute; reflexivity |].
  split; [reflexivity |].
  split; [vm_compute; reflexivity |].
  reflexivity.
Qed.

(** ** Enqueues that stay inside defined behaviour *)

Lemma idiv_defined (a b : Z) :
  b <> 0 -> INT_MIN <= Z.quot a b <= INT_MAX -> idiv a b = Ok (Z.quot a b).
Proof.
  intros Hb Hq. unfold idiv.
  replace (b =? 0) with false by (symmetry; apply Z.eqb_neq; exact Hb).
  apply int_of_in. exact Hq.
Qed.









Lemma total_attempts_skipn (l : list hwsim_tx_rate) (i : nat) (r : hwsim_tx_rate) :
  nth_error l i = Some r ->
  total_attempts (skipn i l) = count r + total_attempts (skipn (S i) l).
Proof.
  revert i. induction l as [| a l IH]; intros i H.
  - destruct i; discriminate H.
  - destruct i as [| i].
    + injection H as ->. reflexivity.
    + simpl in H. apply IH in H. exact H.
Qed.


Lemma Forall_skipn {A : Type} (P : A -> Prop) (l : list A) (n : nat) :
  Forall P l -> Forall P (skipn n l).
Proof.
  revert l. induction n as [| n IH]; intros l H; [exact H |].
  destruct H as [| a l Ha Hl]; [constructor | apply IH, Hl].
Qed.

Section Defined.

Context {M : Medium}.





End Defined.

(** ** Instances *)

(** With the three frames of [Scenario.three_queued] the timer is armed for
    the expiry of a queue head that no other queue head precedes. *)
Lemma rearm_timer_min_head_witness :
  (exists f, In f (queue_heads (stations Scenario.three_queued)) /\
             expires f = timerfd (rearm_timer Scenario.stack Scenario.three_queued)) /\
  (forall g, In g (queue_heads (stations Scenario.three_queued)) ->
             timespec_before (expires g)
               (timerfd (rearm_timer Scenario.stack Scenario.three_queued))
             = false).
Proof.
  apply (rearm_timer_min_head Scenario.stack Scenario.three_queued).
  discriminate.
Defined.

(** The queue of [Scenario.one_queued] is in expiry order, and the handler
    running at 200 us leaves no expired frame. *)
Lemma timer_cb_drains_sorted_witness :
  forallb (fun f => negb (timespec_before (expires f) (Scenario.usec 200)))
    (queued_frames
       (Scenario.state_of
          (timer_cb Scenario.stack (Scenario.usec 200) Scenario.one_queued)))
  = true.
Proof.
  apply forallb_forall. intros f Hin. apply negb_true_iff.
  apply (timer_cb_drains_sorted Scenario.stack (Scenario.usec 200)
           Scenario.one_queued
           (Scenario.state_of
              (timer_cb Scenario.stack (Scenario.usec 200) Scenario.one_queued))).
  - reflexivity.
  - vm_compute. reflexivity.
  - exact Hin.
Defined.


(** * Further properties of the code *)

(** ** Rounding and symbols *)

(** X4: on a non-negative dividend and a positive divisor whose sum fits an
    [int], [div_round] is defined and rounds the quotient up: its result
    [q] is the least integer with [a <= b * q]. *)
Theorem div_round_rounds_up (a b : Z) :
  0 <= a -> 0 < b -> a + b <= INT_MAX ->
  exists q, div_round a b = Ok q /\ b * (q - 1) < a <= b * q.
Proof.
  intros Ha Hb Hfit. destruct int_bounds as [Hmin Hmax].
  assert (Hq : 0 <= (a + b - 1) / b <= a + b - 1).
  { split; [apply Z.div_pos; lia |].
    apply Z.div_le_upper_bound; [lia |]. nia. }
  exists ((a + b - 1) / b). split.
  - unfold div_round, iadd, isub.
    rewrite !bind_int_of by lia.
    rewrite idiv_defined by (rewrite ?Z.quot_div_nonneg; lia).
    rewrite Z.quot_div_nonneg by lia. reflexivity.
  - pose proof (Z.div_mod (a + b - 1) b ltac:(lia)) as Hdm.
    pose proof (Z.mod_pos_bound (a + b - 1) b Hb) as Hr.
    nia.
Qed.

Lemma div_round_rounds_up_witness :
  exists q, div_round 2140 240 = Ok q /\ 240 * (q - 1) < 2140 <= 240 * q.
Proof.
  apply (div_round_rounds_up 2140 240); [lia | lia | vm_compute; discriminate].
Defined.

(** X5: at a rate of the table and a length up to [PKT_LEN_MAX],
    [pkt_duration] is 20 us plus 4 us for each symbol, the number of symbols
    being the least whose [4 * rate / 10] bits each cover the
    [16 + 8 * len + 6] bits of the frame. *)
Theorem pkt_duration_least_symbols (len rate : Z) :
  In rate index_to_rate_table -> 0 <= len <= PKT_LEN_MAX ->
  exists n,
    pkt_duration len rate = Ok (20 + 4 * n) /\
    4 * rate * (n - 1) < (16 + 8 * len + 6) * 10 <= 4 * rate * n.
Proof.
  intros Hr Hl. apply rate_table_range in Hr.
  rewrite pkt_duration_defined by lia.
  rewrite pkt_duration_value_ceil by lia.
  exists (1 + (80 * len + 219) / (4 * rate)). split; [f_equal; ring |].
  pose proof (Z.div_mod (80 * len + 219) (4 * rate) ltac:(lia)) as Hdm.
  pose proof (Z.mod_pos_bound (80 * len + 219) (4 * rate) ltac:(lia)) as Hm.
  nia.
Qed.

Lemma pkt_duration_least_symbols_witness :
  exists n,
    pkt_duration 1500 540 = Ok (20 + 4 * n) /\
    4 * 540 * (n - 1) < (16 + 8 * 1500 + 6) * 10 <= 4 * 540 * n.
Proof.
  apply (pkt_duration_least_symbols 1500 540);
    [simpl; tauto | unfold PKT_LEN_MAX; lia].
Defined.

(** ** Times *)

(** X6: on times whose nanosecond fields are in range, [timespec_before]
    is the order of the instants. *)
Theorem timespec_before_is_earlier (a b : timespec) :
  normalised a -> normalised b ->
  timespec_before a b = (ns_of a <? ns_of b).
Proof.
  unfold normalised, ns_of. intros Ha Hb.
  destruct (timespec_before a b) eqn:E; symmetry.
  - apply timespec_before_iff in E. apply Z.ltb_lt. nia.
  - apply timespec_not_before_iff in E. apply Z.ltb_ge. nia.
Qed.

Lemma timespec_before_is_earlier_witness :
  timespec_before (Scenario.usec 91) (Scenario.usec 194)
  = (ns_of (Scenario.usec 91) <? ns_of (Scenario.usec 194)).
Proof.
  apply (timespec_before_is_earlier (Scenario.usec 91) (Scenario.usec 194));
    unfold normalised; simpl; lia.
Defined.

(** X7: [timespec_add_usec] on a time in range and a non-negative number
    of microseconds adds exactly that much and carries at most one second:
    the result is in range again exactly when less than two seconds of
    nanoseconds had accumulated. *)
Theorem timespec_add_usec_one_carry (t t' : timespec) (usec : Z) :
  normalised t -> 0 <= usec ->
  timespec_add_usec t usec = Ok t' ->
  ns_of t' = ns_of t + 1000 * usec /\
  tv_sec t <= tv_sec t' <= tv_sec t + 1 /\
  0 <= tv_nsec t' /\
  (tv_nsec t' < 1000000000 <-> tv_nsec t + 1000 * usec < 2000000000).
Proof.
  unfold normalised. intros Hn Hu H.
  split; [apply timespec_add_usec_ns; exact H |].
  unfold timespec_add_usec, long_of in H. inv_bind. inv_arith.
  destruct (_ && _) in *; [| discriminate].
  match goal with E : Ok _ = Ok ?v |- _ => injection E as E; subst v end.
  destruct (1000000000 <=? tv_nsec t + usec * 1000) eqn:Ec.
  - apply Z.leb_le in Ec. inv_bind.
    repeat match goal with
    | E : (if ?c then _ else _) = Ok _ |- _ =>
        destruct c; [injection E as E | discriminate E]
    end.
    subst. cbn [tv_sec tv_nsec]. lia.
  - apply Z.leb_gt in Ec. injection H as <-. cbn [tv_sec tv_nsec]. lia.
Qed.

Lemma timespec_add_usec_one_carry_witness :
  ns_of {| tv_sec := 1; tv_nsec := 1500000000 |}
    = ns_of {| tv_sec := 0; tv_nsec := 500000000 |} + 1000 * 2000000 /\
  0 <= 1 <= 0 + 1 /\
  0 <= 1500000000 /\
  (1500000000 < 1000000000 <-> 500000000 + 1000 * 2000000 < 2000000000).
Proof.
  apply (timespec_add_usec_one_carry {| tv_sec := 0; tv_nsec := 500000000 |}
           {| tv_sec := 1; tv_nsec := 1500000000 |} 2000000).
  - unfold normalised. simpl. lia.
  - lia.
  - reflexivity.
Defined.

(** ** The registry *)

Lemma combine_eqb_eq (a b : list Z) :
  length a = length b ->
  forallb (fun p => fst p =? snd p) (combine a b) = true -> a = b.
Proof.
  revert b. induction a as [| x a IH]; intros [| y b] Hl H;
    try reflexivity; try discriminate Hl.
  simpl in H. apply andb_true_iff in H. destruct H as [Hxy H].
  apply Z.eqb_eq in Hxy. f_equal; [exact Hxy |].
  apply IH; [now injection Hl | exact H].
Qed.

Lemma combine_eqb_refl (a : list Z) :
  forallb (fun p => fst p =? snd p) (combine a a) = true.
Proof.
  induction a as [| x a IH]; [reflexivity |].
  simpl. now rewrite Z.eqb_refl.
Qed.

(** On six-byte addresses [addr_eqb] is equality. *)
Lemma addr_eqb_eq (a b : list Z) :
  length a = ETH_ALEN -> length b = ETH_ALEN ->
  addr_eqb a b = true <-> a = b.
Proof.
  intros Ha Hb. unfold addr_eqb.
  rewrite <- Ha at 1. rewrite <- Hb at 1. rewrite !firstn_all.
  split.
  - apply combine_eqb_eq. congruence.
  - intros ->. apply combine_eqb_refl.
Qed.

Lemma get_station_by_addr_spec (sts : list station) (a : list Z) (k0 : nat)
    (r : option nat) :
  get_station_by_addr sts a k0 = Ok r ->
  match r with
  | Some k =>
      exists st, (k0 <= k)%nat /\
        nth_error sts (k - k0) = Some st /\
        addr_eqb (addr st) a = true /\
        (forall k' st', (k' < k - k0)%nat -> nth_error sts k' = Some st' ->
                        addr_eqb (addr st') a = false)
  | None => forall st, In st sts -> addr_eqb (addr st) a = false
  end.
Proof.
  revert k0. induction sts as [| st sts IH]; intros k0 H; simpl in H.
  - injection H as <-. intros st [].
  - inv_bind.
    match goal with E : memcmp_eq _ _ = Ok ?v |- _ =>
      apply memcmp_eq_ok in E; rename v into same; rename E into Hsame end.
    destruct same.
    + injection H as <-. exists st. rewrite Nat.sub_diag.
      split; [lia |]. split; [reflexivity |]. split; [now symmetry |].
      intros k' st' Hk'. lia.
    + apply IH in H. destruct r as [k |].
      * destruct H as (st1 & Hk & Hn & He & Hfirst).
        exists st1. split; [lia |].
        replace (k - k0)%nat with (S (k - S k0)) by lia.
        split; [exact Hn |]. split; [exact He |].
        intros [| k'] st' Hk' Hst'.
        -- injection Hst' as <-. now symmetry.
        -- apply (Hfirst k' st'); [lia | exact Hst'].
      * intros st1 [<- | Hin]; [now symmetry | now apply H].
Qed.

(** X8: [get_station_by_addr] finds the first station whose address has the
    six bytes looked for: a position it returns holds such a station and no
    earlier position does; when it returns none, no station has them. *)
Theorem get_station_by_addr_first_match (sts : list station) (a : list Z)
    (r : option nat) :
  get_station_by_addr sts a 0 = Ok r ->
  match r with
  | Some k =>
      exists st,
        nth_error sts k = Some st /\
        addr_eqb (addr st) a = true /\
        (forall k' st', (k' < k)%nat -> nth_error sts k' = Some st' ->
                        addr_eqb (addr st') a = false)
  | None => forall st, In st sts -> addr_eqb (addr st) a = false
  end.
Proof.
  intros H. apply get_station_by_addr_spec in H.
  destruct r as [k |]; [| exact H].
  destruct H as (st & _ & Hn & He & Hfirst).
  rewrite Nat.sub_0_r in *. exists st. repeat split; assumption.
Qed.

Lemma get_station_by_addr_first_match_witness :
  exists st,
    nth_error (init_stations [Scenario.A; Scenario.B]) 1 = Some st /\
    addr_eqb (addr st) Scenario.B = true /\
    (forall k' st', (k' < 1)%nat ->
       nth_error (init_stations [Scenario.A; Scenario.B]) k' = Some st' ->
       addr_eqb (addr st') Scenario.B = false).
Proof.
  apply (get_station_by_addr_first_match
           (init_stations [Scenario.A; Scenario.B]) Scenario.B (Some 1%nat)).
  reflexivity.
Defined.

Lemma get_station_by_addr_init (addrs : list (list Z)) (a : list Z) (i k0 : nat) :
  Forall (fun x => length x = ETH_ALEN) addrs ->
  NoDup addrs ->
  nth_error addrs i = Some a ->
  get_station_by_addr (init_stations addrs) a k0 = Ok (Some (k0 + i)%nat).
Proof.
  revert i k0. induction addrs as [| x addrs IH]; intros i k0 Hlen Hnd Hi.
  - destruct i; discriminate Hi.
  - inversion Hlen as [| ? ? Hx Hrest]; subst.
    inversion Hnd as [| ? ? Hnotin Hnd']; subst.
    assert (Ha : length a = ETH_ALEN).
    { rewrite Forall_forall in Hlen. apply Hlen.
      eapply nth_error_In. exact Hi. }
    simpl. rewrite memcmp_eq_defined by (simpl; lia). rewrite bind_Ok_l.
    cbn [addr]. destruct i as [| i].
    + injection Hi as ->.
      replace (addr_eqb a a) with true
        by (symmetry; apply addr_eqb_eq; auto).
      f_equal. f_equal. lia.
    + simpl in Hi.
      destruct (addr_eqb x a) eqn:E.
      * apply addr_eqb_eq in E; [| assumption | assumption]. subst x.
        exfalso. apply Hnotin. eapply nth_error_In. exact Hi.
      * rewrite (IH i (S k0) Hrest Hnd' Hi). f_equal. f_equal. lia.
Qed.

(** X9: after the set-up of [main] on distinct six-byte addresses, looking
    up the address of the [i]-th configuration entry gives station [i],
    which has that address, an empty data queue with contention window
    (15, 1023) and an empty management queue with (3, 7). *)
Theorem main_ctx_lookup (addrs : list (list Z)) (a : list Z) (i : nat) :
  Forall (fun x => length x = ETH_ALEN) addrs ->
  NoDup addrs ->
  nth_error addrs i = Some a ->
  get_station_by_addr (stations (main_ctx addrs)) a 0 = Ok (Some i) /\
  nth_error (stations (main_ctx addrs)) i
    = Some {| addr := a;
              data_queue := {| frames := []; cw_min := 15; cw_max := 1023 |};
              mgmt_queue := {| frames := []; cw_min := 3; cw_max := 7 |} |}.
Proof.
  intros Hlen Hnd Hi. split.
  - apply (get_station_by_addr_init addrs a i 0 Hlen Hnd Hi).
  - unfold main_ctx, init_stations. cbn [stations].
    rewrite nth_error_map, Hi. reflexivity.
Qed.

Lemma main_ctx_lookup_witness :
  get_station_by_addr (stations (main_ctx [Scenario.A; Scenario.B]))
    Scenario.B 0 = Ok (Some 1%nat) /\
  nth_error (stations (main_ctx [Scenario.A; Scenario.B])) 1
    = Some {| addr := Scenario.B;
              data_queue := {| frames := []; cw_min := 15; cw_max := 1023 |};
              mgmt_queue := {| frames := []; cw_min := 3; cw_max := 7 |} |}.
Proof.
  apply (main_ctx_lookup [Scenario.A; Scenario.B] Scenario.B 1).
  - repeat constructor.
  - repeat constructor; simpl; intuition discriminate.
  - reflexivity.
Defined.

(** ** What the handlers keep *)

(** [inv_bind] through results that are pairs. *)
Ltac inv_pairs :=
  repeat first
    [ progress inv_bind
    | match goal with v : (_ * _)%type |- _ => destruct v end ];
  subst.

Lemma update_station_shape (sts : list station) (k : nat) (mgmt : bool)
    (f : frame) :
  map station_shape (update_station sts k (station_add_tail mgmt f))
  = map station_shape sts.
Proof.
  revert k. induction sts as [| st sts IH]; intros k; [reflexivity |].
  destruct k as [| k]; simpl.
  - f_equal. destruct mgmt; reflexivity.
  - f_equal. apply IH.
Qed.

Lemma update_station_classified (sts : list station) (k0 i : nat)
    (mgmt : bool) (f : frame) (st : station) :
  stations_classified k0 sts = true ->
  nth_error sts i = Some st ->
  frame_in_place (k0 + i) mgmt f = true ->
  stations_classified k0 (update_station sts i (station_add_tail mgmt f)) = true.
Proof.
  revert k0 i. induction sts as [| s sts IH]; intros k0 i Hc Hi Hf.
  - destruct i; discriminate Hi.
  - simpl in Hc. apply andb_true_iff in Hc. destruct Hc as [Hs Hc].
    destruct i as [| i]; simpl.
    + rewrite Nat.add_0_r in Hf. rewrite Hc, andb_true_r.
      unfold station_classified in *. apply andb_true_iff in Hs.
      destruct Hs as [Hm Hd].
      destruct mgmt; simpl; rewrite ?forallb_app; simpl;
        rewrite ?Hm, ?Hd, ?Hf; reflexivity.
    + rewrite Hs. simpl. simpl in Hi.
      apply (IH (S k0) i Hc Hi).
      replace (S k0 + i)%nat with (k0 + S i)%nat by lia. exact Hf.
Qed.

Lemma forallb_app_r {A : Type} (p : A -> bool) (l1 l2 : list A) :
  forallb p (l1 ++ l2) = true -> forallb p l2 = true.
Proof.
  rewrite forallb_app, andb_true_iff. tauto.
Qed.

(** What the loop of [deliver_expired_frames] makes of the stations. *)
Lemma deliver_loop_drained (sts todo todo' : list station) (now : timespec)
    (out : list nl_msg) :
  deliver_expired_frames_loop sts now todo = Ok (todo', out) ->
  Forall2 (fun st st' =>
             station_shape st' = station_shape st /\
             queue_drained now (frames (mgmt_queue st)) (frames (mgmt_queue st')) /\
             queue_drained now (frames (data_queue st)) (frames (data_queue st')))
          todo todo'.
Proof.
  revert todo' out. induction todo as [| st todo IH]; intros todo' out H;
    simpl in H.
  - injection H as <- <-. constructor.
  - inv_pairs.
    match goal with E : deliver_expired_frames_station _ _ _ = Ok _ |- _ =>
      unfold deliver_expired_frames_station in E end.
    inv_pairs.
    constructor.
    + split; [reflexivity |]. cbn [mgmt_queue data_queue frames].
      split.
      * match goal with
        | E : deliver_expired_frames_queue _ (frames (mgmt_queue st)) _ = Ok _
          |- _ => apply deliver_queue_kept in E;
                  destruct E as [(gone & Hq & Hg) Hk] end.
        exists gone. repeat split; assumption.
      * match goal with
        | E : deliver_expired_frames_queue _ (frames (data_queue st)) _ = Ok _
          |- _ => apply deliver_queue_kept in E;
                  destruct E as [(gone & Hq & Hg) Hk] end.
        exists gone. repeat split; assumption.
    + eapply IH. eassumption.
Qed.

Lemma drained_classified (k : nat) (now : timespec) (todo todo' : list station) :
  Forall2 (fun st st' =>
             station_shape st' = station_shape st /\
             queue_drained now (frames (mgmt_queue st)) (frames (mgmt_queue st')) /\
             queue_drained now (frames (data_queue st)) (frames (data_queue st')))
          todo todo' ->
  stations_classified k todo = true ->
  stations_classified k todo' = true /\
  map station_shape todo' = map station_shape todo.
Proof.
  intros H. revert k. induction H as [| st st' todo todo' Hst _ IH]; intros k Hc.
  - split; reflexivity.
  - simpl in Hc. apply andb_true_iff in Hc. destruct Hc as [Hs Hc].
    destruct (IH (S k) Hc) as [Hc' Hshape].
    destruct Hst as (Hsh & (gm & Hm & _) & (gd & Hd & _)).
    split.
    + simpl. rewrite Hc', andb_true_r.
      unfold station_classified in *. apply andb_true_iff in Hs.
      destruct Hs as [Hsm Hsd]. rewrite Hm in Hsm. rewrite Hd in Hsd.
      apply forallb_app_r in Hsm. apply forallb_app_r in Hsd.
      now rewrite Hsm, Hsd.
    + simpl. now rewrite Hsh, Hshape.
Qed.

Section Runs.

Context {M : Medium}.

Lemma process_messages_cb_keeps (stack_min_expires now : timespec)
    (ctx ctx' : wmediumd) (m : incoming) :
  process_messages_cb stack_min_expires now ctx m = Ok ctx' ->
  queues_classified ctx = true ->
  queues_classified ctx' = true /\
  registry_shape ctx' = registry_shape ctx /\
  sock ctx' = sock ctx.
Proof.
  intros H Hc. unfold process_messages_cb in H.
  destruct m as [attrs |]; [| injection H as <-; auto].
  destruct (ATTR_ADDR_TRANSMITTER attrs) as [src |]; [| injection H as <-; auto].
  inv_bind.
  match goal with v : option nat |- _ => destruct v as [s |] end;
    [| injection H as <-; auto].
  apply queue_frame_ok in H.
  destruct H as (st & f' & loc & Hst & Hres & Hsts & Hsock).
  apply queue_frame_result_ok in Hres.
  destruct Hres as (_ & _ & _ & _ & _ & _ & Hsender & Hdata).
  cbn [frame_of_attrs sender data] in Hsender, Hdata.
  unfold queues_classified, registry_shape. rewrite Hsts.
  split; [| split; [apply update_station_shape | exact Hsock]].
  apply (update_station_classified _ _ _ _ _ st Hc Hst).
  unfold frame_in_place. cbn [frame_of_attrs data].
  rewrite Hsender, Hdata, Nat.eqb_refl, eqb_reflx. reflexivity.
Qed.

Lemma timer_cb_keeps (stack_min_expires now : timespec) (ctx ctx' : wmediumd) :
  timer_cb stack_min_expires now ctx = Ok ctx' ->
  queues_classified ctx = true ->
  queues_classified ctx' = true /\
  registry_shape ctx' = registry_shape ctx /\
  extends (sock ctx) (sock ctx').
Proof.
  intros H Hc. unfold timer_cb, deliver_expired_frames in H. inv_pairs.
  match goal with E : deliver_expired_frames_loop _ _ _ = Ok (?l, ?o) |- _ =>
    apply deliver_loop_drained in E;
    destruct (drained_classified 0 now _ _ E Hc) as [Hc' Hsh];
    rename o into out end.
  unfold queues_classified, registry_shape.
  rewrite rearm_timer_stations. cbn [stations sock rearm_timer].
  split; [exact Hc' |]. split; [exact Hsh |].
  exists out. reflexivity.
Qed.

Lemma extends_refl {A : Type} (l : list A) : extends l l.
Proof. exists []. now rewrite app_nil_r. Qed.

Lemma extends_trans {A : Type} (l1 l2 l3 : list A) :
  extends l1 l2 -> extends l2 l3 -> extends l1 l3.
Proof.
  intros [m1 ->] [m2 ->]. exists (m1 ++ m2). now rewrite app_assoc.
Qed.

Lemma sock_event_cb_keeps (ctx ctx' : wmediumd)
    (pending : list (reading * incoming)) :
  sock_event_cb ctx pending = Ok ctx' ->
  queues_classified ctx = true ->
  queues_classified ctx' = true /\
  registry_shape ctx' = registry_shape ctx /\
  sock ctx' = sock ctx.
Proof.
  revert ctx. induction pending as [| [r m] pending IH]; intros ctx H Hc;
    simpl in H.
  - injection H as <-. auto.
  - inv_bind.
    match goal with E : process_messages_cb _ _ _ _ = Ok _ |- _ =>
      apply process_messages_cb_keeps in E; [| exact Hc];
      destruct E as (Hc1 & Hsh1 & Hs1) end.
    destruct (IH _ H Hc1) as (Hc2 & Hsh2 & Hs2).
    split; [exact Hc2 |]. split; congruence.
Qed.

(** X10: the event loop keeps every frame in place.  If every queued frame
    sits in a queue of the station that sent it, management frames in the
    management queue and the others in the data queue, this is so again
    after any sequence of socket and timer events; the addresses and the
    contention windows of the stations are as before, and the messages sent
    so far are still the start of the messages sent. *)
Theorem event_dispatch_keeps_frames_in_place (ctx ctx' : wmediumd)
    (evs : list event) :
  queues_classified ctx = true ->
  event_dispatch ctx evs = Ok ctx' ->
  queues_classified ctx' = true /\
  registry_shape ctx' = registry_shape ctx /\
  extends (sock ctx) (sock ctx').
Proof.
  revert ctx. induction evs as [| ev evs IH]; intros ctx Hc H; simpl in H.
  - injection H as <-. split; [exact Hc |]. split; [reflexivity |].
    apply extends_refl.
  - inv_bind.
    match goal with E : dispatch _ _ = Ok ?c |- _ =>
      rename c into ctx1; rename E into Hd end.
    assert (H1 : queues_classified ctx1 = true /\
                 registry_shape ctx1 = registry_shape ctx /\
                 extends (sock ctx) (sock ctx1)).
    { destruct ev as [pending | r]; simpl in Hd.
      - apply sock_event_cb_keeps in Hd; [| exact Hc].
        destruct Hd as (? & ? & Hs). repeat split; try assumption.
        rewrite Hs. apply extends_refl.
      - apply timer_cb_keeps in Hd; [| exact Hc]. exact Hd. }
    destruct H1 as (Hc1 & Hsh1 & Hs1).
    destruct (IH _ Hc1 H) as (Hc2 & Hsh2 & Hs2).
    split; [exact Hc2 |]. split; [congruence |].
    eapply extends_trans; eassumption.
Qed.

End Runs.

Lemma event_dispatch_keeps_frames_in_place_witness :
  queues_classified Scenario.after_fire = true /\
  registry_shape Scenario.after_fire
    = registry_shape (main_ctx [Scenario.A; Scenario.B]) /\
  extends (sock (main_ctx [Scenario.A; Scenario.B])) (sock Scenario.after_fire).
Proof.
  apply (event_dispatch_keeps_frames_in_place (M := Scenario.always_ack)
           (main_ctx [Scenario.A; Scenario.B]) Scenario.after_fire
           [EV_SOCK [({| clock_now := Scenario.t0;
                         stack_slot := Scenario.stack |}, Scenario.long_data);
                     ({| clock_now := Scenario.usec 1;
                         stack_slot := Scenario.stack |}, Scenario.short_data)];
            EV_SOCK [({| clock_now := Scenario.usec 2;
                         stack_slot := Scenario.stack |}, Scenario.short_mgmt)];
            EV_TIMER {| clock_now := Scenario.usec 100;
                        stack_slot := Scenario.stack |}]).
  - reflexivity.
  - vm_compute. reflexivity.
Defined.

(** ** What one timer run delivers *)

Lemma deliver_rx_only_clones (sts : list station) (src dest : list Z) (f : frame)
    (out : list nl_msg) :
  deliver_rx sts src dest f = Ok out -> filter is_tx_info out = [].
Proof.
  revert out. induction sts as [| st sts IH]; intros out H; simpl in H.
  - now injection H as <-.
  - inv_bind.
    match goal with v : bool |- _ => destruct v end; [now apply IH |].
    inv_bind. subst out.
    match goal with E : deliver_rx _ _ _ _ = Ok _ |- _ => apply IH in E end.
    match goal with |- context [if ?c then _ else _] => destruct c end;
      simpl; assumption.
Qed.

(** Each delivered frame is reported once. *)
Lemma deliver_frame_one_report (sts : list station) (f : frame)
    (msgs : list nl_msg) :
  deliver_frame sts f = Ok msgs -> length (filter is_tx_info msgs) = 1%nat.
Proof.
  intros H. apply deliver_frame_ok in H.
  destruct H as (s & clones & _ & -> & Hc).
  rewrite filter_app.
  assert (Hn : filter is_tx_info clones = []).
  { destruct (ack_flag_set (flags f)).
    - eapply deliver_rx_only_clones. exact Hc.
    - now subst clones. }
  rewrite Hn. reflexivity.
Qed.

Lemma deliver_queue_reports (sts : list station) (now : timespec)
    (q kept : list frame) (out : list nl_msg) :
  deliver_expired_frames_queue sts q now = Ok (kept, out) ->
  length q = (length kept + length (filter is_tx_info out))%nat.
Proof.
  revert kept out. induction q as [| a q IH]; intros kept out H; simpl in H.
  - injection H as <- <-. reflexivity.
  - destruct (timespec_before (expires a) now).
    + inv_pairs.
      match goal with E : deliver_frame _ _ = Ok _ |- _ =>
        apply deliver_frame_one_report in E; rename E into H1 end.
      match goal with E : deliver_expired_frames_queue _ _ _ = Ok _ |- _ =>
        apply IH in E; rename E into H2 end.
      rewrite filter_app, length_app. simpl. lia.
    + injection H as <- <-. simpl. lia.
Qed.

Lemma deliver_loop_reports (sts todo todo' : list station) (now : timespec)
    (out : list nl_msg) :
  deliver_expired_frames_loop sts now todo = Ok (todo', out) ->
  length (flat_map station_frames todo)
  = (length (flat_map station_frames todo')
     + length (filter is_tx_info out))%nat.
Proof.
  revert todo' out. induction todo as [| st todo IH]; intros todo' out H;
    simpl in H.
  - injection H as <- <-. reflexivity.
  - inv_pairs.
    match goal with E : deliver_expired_frames_station _ _ _ = Ok _ |- _ =>
      unfold deliver_expired_frames_station in E end.
    inv_pairs.
    repeat match goal with
    | E : deliver_expired_frames_queue _ _ _ = Ok _ |- _ =>
        apply deliver_queue_reports in E
    | E : deliver_expired_frames_loop _ _ _ = Ok _ |- _ => apply IH in E
    end.
    cbn [flat_map]. unfold station_frames at 1 3.
    cbn [mgmt_queue data_queue frames].
    rewrite !filter_app, !length_app. lia.
Qed.

(** X11: a run of the timer handler reports every frame it takes out of a
    queue exactly once and no other: the messages it sends hold as many
    tx-info messages as frames have left the queues.  It draws no random
    value. *)
Theorem timer_cb_reports_each_frame_once (stack_min_expires now : timespec)
    (ctx ctx' : wmediumd) :
  timer_cb stack_min_expires now ctx = Ok ctx' ->
  exists out,
    sock ctx' = sock ctx ++ out /\
    length (queued_frames ctx)
    = (length (queued_frames ctx') + length (filter is_tx_info out))%nat /\
    drand48_calls ctx' = drand48_calls ctx.
Proof.
  intros H. unfold timer_cb, deliver_expired_frames in H. inv_pairs.
  match goal with E : deliver_expired_frames_loop _ _ _ = Ok (_, ?o) |- _ =>
    apply deliver_loop_reports in E; exists o; rename E into Hn end.
  split; [reflexivity |]. split; [exact Hn | reflexivity].
Qed.

Lemma timer_cb_reports_each_frame_once_witness :
  exists out,
    sock Scenario.after_fire = sock Scenario.three_queued ++ out /\
    length (queued_frames Scenario.three_queued)
    = (length (queued_frames Scenario.after_fire)
       + length (filter is_tx_info out))%nat /\
    drand48_calls Scenario.after_fire = drand48_calls Scenario.three_queued.
Proof.
  apply (timer_cb_reports_each_frame_once Scenario.stack (Scenario.usec 100)
           Scenario.three_queued Scenario.after_fire).
  vm_compute. reflexivity.
Defined.

Lemma Forall2_flat_map {A B : Type} (R : B -> B -> Prop) (P : A -> A -> Prop)
    (g : A -> list B) (l l' : list A) :
  (forall a a', P a a' -> Forall2 R (g a) (g a')) ->
  Forall2 P l l' -> Forall2 R (flat_map g l) (flat_map g l').
Proof.
  intros Hg H. induction H as [| a a' l l' Ha _ IH]; simpl.
  - constructor.
  - apply Forall2_app; [apply Hg; exact Ha | exact IH].
Qed.

(** X12: a run of the timer handler takes from each queue exactly the
    expired frames at its head: every queue afterwards is what remains of
    the queue before once a run of frames with [expires < now] is removed
    from the front, and the frame now at its head, if any, has not expired. *)
Theorem timer_cb_drains_heads (stack_min_expires now : timespec)
    (ctx ctx' : wmediumd) :
  timer_cb stack_min_expires now ctx = Ok ctx' ->
  Forall2 (queue_drained now) (all_queues ctx) (all_queues ctx').
Proof.
  intros H. unfold timer_cb, deliver_expired_frames in H. inv_pairs.
  match goal with E : deliver_expired_frames_loop _ _ _ = Ok _ |- _ =>
    apply deliver_loop_drained in E; rename E into Hd end.
  unfold all_queues. rewrite rearm_timer_stations. cbn [stations].
  eapply Forall2_flat_map; [| exact Hd].
  intros st st' (_ & Hm & Hdq). unfold station_queues.
  repeat constructor; assumption.
Qed.

Lemma timer_cb_drains_heads_witness :
  Forall2 (queue_drained (Scenario.usec 100))
    (all_queues Scenario.three_queued) (all_queues Scenario.after_fire).
Proof.
  apply (timer_cb_drains_heads Scenario.stack (Scenario.usec 100)
           Scenario.three_queued Scenario.after_fire).
  vm_compute. reflexivity.
Defined.

(** ** The timer after an enqueue *)

Lemma queue_heads_after_add (sts : list station) (k : nat) (mgmt : bool)
    (f : frame) (st : station) :
  nth_error sts k = Some st ->
  queue_heads (update_station sts k (station_add_tail mgmt f)) <> [].
Proof.
  revert k. induction sts as [| s sts IH]; intros k Hk.
  - destruct k; discriminate Hk.
  - destruct k as [| k]; simpl.
    + unfold head_of, station_add_tail, wqueue_add_tail.
      destruct mgmt; cbn [mgmt_queue data_queue frames].
      * destruct (frames (mgmt_queue s)); discriminate.
      * destruct (frames (mgmt_queue s)); [| discriminate].
        destruct (frames (data_queue s)); discriminate.
    + simpl in Hk. intros C. apply app_eq_nil in C. destruct C as [_ C].
      exact (IH k Hk C).
Qed.

Section AfterEnqueue.

Context {M : Medium}.

(** [queue_frame] ends with [rearm_timer] on the context that holds the new
    frame. *)
Lemma queue_frame_rearms (stack_min_expires now : timespec) (ctx ctx' : wmediumd)
    (k : nat) (f : frame) :
  queue_frame stack_min_expires now ctx k f = Ok ctx' ->
  exists st f' loc,
    nth_error (stations ctx) k = Some st /\
    ctx' = rearm_timer stack_min_expires
             {| timerfd := timerfd ctx; sock := sock ctx;
                stations := update_station (stations ctx) k
                              (station_add_tail (is_management (data f)) f');
                drand48_calls := calls loc |}.
Proof.
  unfold queue_frame, nth_station. intros H. inv_bind.
  match goal with E : frame_is_mgmt _ = Ok _ |- _ =>
    apply frame_is_mgmt_ok in E; destruct E as [-> _] end.
  match goal with v : (frame * tx_locals)%type |- _ => destruct v as [f' loc] end.
  inv_bind. subst ctx'.
  destruct (nth_error (stations ctx) k) as [st |] eqn:Hst;
    [| match goal with E : Undefined _ = Ok _ |- _ => discriminate E end].
  exists st, f', loc. split; reflexivity.
Qed.

(** X13: after every enqueue the timer is armed for the expiry of a queue
    head that no queue head precedes, whatever the uninitialised local of
    [rearm_timer] held: the new frame itself keeps some queue non-empty. *)
Theorem enqueue_arms_earliest_head (stack_min_expires now : timespec)
    (ctx ctx' : wmediumd) (k : nat) (f : frame) :
  queue_frame stack_min_expires now ctx k f = Ok ctx' ->
  (exists g, In g (queue_heads (stations ctx')) /\ expires g = timerfd ctx') /\
  (forall g, In g (queue_heads (stations ctx')) ->
             timespec_before (expires g) (timerfd ctx') = false).
Proof.
  intros H. apply queue_frame_rearms in H.
  destruct H as (st & f' & loc & Hst & ->).
  rewrite rearm_timer_stations. unfold rearm_timer. cbn [timerfd stations].
  rewrite rearm_fold_heads.
  pose proof (queue_heads_after_add (stations ctx) k
                (is_management (data f)) f' st Hst) as Hne.
  destruct (visit_fold_min
              (queue_heads (update_station (stations ctx) k
                              (station_add_tail (is_management (data f)) f')))
              false stack_min_expires)
    as (_ & _ & _ & I4 & I5 & _).
  split; [apply I4; [reflexivity | exact Hne] | exact I5].
Qed.

End AfterEnqueue.

Lemma enqueue_arms_earliest_head_witness :
  (exists g, In g (queue_heads (stations Scenario.two_queued)) /\
             expires g = timerfd Scenario.two_queued) /\
  (forall g, In g (queue_heads (stations Scenario.two_queued)) ->
             timespec_before (expires g) (timerfd Scenario.two_queued) = false).
Proof.
  apply (enqueue_arms_earliest_head (M := Scenario.always_ack) Scenario.stack
           (Scenario.usec 1) Scenario.one_queued Scenario.two_queued 0
           (frame_of_attrs
              {| ATTR_ADDR_TRANSMITTER := Some Scenario.A;
                 ATTR_FRAME := Scenario.data_payload Scenario.B 24;
                 ATTR_FLAGS := 0; ATTR_TX_INFO := Scenario.one_try;
                 ATTR_COOKIE := 77 |} 0)).
  vm_compute. reflexivity.
Defined.

(** ** What the send-time loops keep *)

(** Projections of explicit loop locals, nothing else unfolded. *)
Ltac proj_locals :=
  cbv beta iota delta [send_time cw retries is_acked calls] in *.

Section LoopFacts.

Context {M : Medium}.

(** One pass of the loops over a frame that expects an acknowledgement:
    one value is drawn per attempt, and the contention window stays between
    its bounds. *)
Lemma tx_attempts_tally (queue_cw_max lo len rate_idx ack_time_usec : Z)
    (error_prob : double) (n : nat) (j j' : Z) (loc loc' : tx_locals) :
  tx_attempts queue_cw_max len rate_idx ack_time_usec error_prob false n j loc
    = Ok (j', loc') ->
  Z.of_nat (calls loc') - retries loc' = Z.of_nat (calls loc) - retries loc /\
  (lo <= queue_cw_max -> lo <= cw loc <= queue_cw_max ->
   lo <= cw loc' <= queue_cw_max).
Proof.
  revert j loc. induction n as [| n IH]; intros j loc H.
  - simpl in H. injection H as <- <-. split; [reflexivity | tauto].
  - apply tx_attempts_step in H.
    destruct H as (rate & d & _ & _ & [(C & _) | (_ & s2 & cw2 & Hb & H)]);
      [discriminate C |].
    assert (Hcw : lo <= queue_cw_max -> lo <= cw loc <= queue_cw_max ->
                  lo <= cw2 <= queue_cw_max).
    { intros Hlo Hc.
      destruct Hb as [(_ & _ & ->) | (_ & Hpos & _ & ->)]; [exact Hc |].
      destruct (queue_cw_max <? 2 * cw loc + 1) eqn:E; [lia |].
      apply Z.ltb_ge in E. lia. }
    destruct H as [(_ & _ & ->) | (_ & H)].
    + proj_locals. split; [lia | exact Hcw].
    + apply IH in H. proj_locals. destruct H as [Hd Hk].
      split; [lia |]. intros Hlo Hc. apply Hk; [exact Hlo |].
      apply Hcw; assumption.
Qed.

Lemma tx_rungs_tally (queue_cw_max lo len ack_time_usec : Z)
    (ladder : list hwsim_tx_rate) (fuel i i' : nat) (j j' : Z)
    (loc loc' : tx_locals) :
  tx_rungs queue_cw_max len ack_time_usec false ladder fuel i j loc
    = Ok (i', j', loc') ->
  Z.of_nat (calls loc') - retries loc' = Z.of_nat (calls loc) - retries loc /\
  (lo <= queue_cw_max -> lo <= cw loc <= queue_cw_max ->
   lo <= cw loc' <= queue_cw_max).
Proof.
  revert i j loc. induction fuel as [| fuel IH]; intros i j loc H.
  - simpl in H. injection H as <- <- <-. split; [reflexivity | tauto].
  - destruct (is_acked loc) eqn:Hacked.
    + rewrite tx_rungs_acked in H by exact Hacked. injection H as <- <- <-.
      split; [reflexivity | tauto].
    + apply tx_rungs_step in H; [| exact Hacked].
      destruct H as (rung & _ & [(_ & _ & _ & ->) | (_ & j1 & loc1 & H1 & H2)]);
        [split; [reflexivity | tauto] |].
      apply (tx_attempts_tally _ lo) in H1. apply IH in H2.
      destruct H1 as [Hd1 Hk1]. destruct H2 as [Hd2 Hk2].
      split; [lia |]. intros Hlo Hc. apply Hk2; [exact Hlo |].
      apply Hk1; assumption.
Qed.

(** The attempts the loops make, against what the ladder allows. *)
Lemma tx_rungs_retries (queue_cw_max len ack_time_usec : Z) (noack : bool)
    (ladder : list hwsim_tx_rate) (fuel i i' : nat) (j j' : Z)
    (loc loc' : tx_locals) :
  Forall (fun r => 0 <= count r) ladder ->
  tx_rungs queue_cw_max len ack_time_usec noack ladder fuel i j loc
    = Ok (i', j', loc') ->
  retries loc <= retries loc'
    <= retries loc + total_attempts (skipn i ladder) /\
  (is_acked loc' = false -> (i + fuel = length ladder)%nat ->
   Forall (fun r => 0 <= idx r) ladder ->
   retries loc' = retries loc + total_attempts (skipn i ladder)).
Proof.
  intros Hcount.
  assert (Hnn : forall k, 0 <= total_attempts (skipn k ladder)).
  { intros k. pose proof (Forall_skipn _ _ k Hcount) as Hs.
    induction Hs as [| r l Hr _ IHl]; [simpl; lia |].
    change (total_attempts (r :: l)) with (count r + total_attempts l). lia. }
  revert i j loc. induction fuel as [| fuel IH]; intros i j loc H.
  - simpl in H. injection H as <- <- <-.
    pose proof (Hnn i). split; [lia |].
    intros _ Hlen _. rewrite Nat.add_0_r in Hlen. subst i.
    rewrite skipn_all. simpl. lia.
  - destruct (is_acked loc) eqn:Hacked.
    + rewrite tx_rungs_acked in H by exact Hacked. injection H as <- <- <-.
      pose proof (Hnn i). split; [lia | congruence].
    + apply tx_rungs_step in H; [| exact Hacked].
      destruct H as (rung & Hrung & H).
      pose proof (total_attempts_skipn _ _ _ Hrung) as Hsplit.
      assert (Hc : 0 <= count rung).
      { rewrite Forall_forall in Hcount. apply Hcount.
        eapply nth_error_In. exact Hrung. }
      pose proof (Hnn (S i)) as Hrest.
      destruct H as [(Hneg & _ & _ & ->) | (_ & j1 & loc1 & H1 & H2)].
      * split; [lia |]. intros _ _ Hidx.
        rewrite Forall_forall in Hidx.
        specialize (Hidx rung (nth_error_In _ _ Hrung)). lia.
      * pose proof (tx_attempts_position _ _ _ _ _ _ _ _ _ _ _ Hacked H1) as Hp.
        rewrite Z2Nat.id in Hp by lia.
        destruct (IH _ _ _ H2) as [Hb Hex].
        destruct (is_acked loc1) eqn:Ha1.
        -- split; [lia |]. intros Hna _ _.
           rewrite tx_rungs_acked in H2 by exact Ha1.
           injection H2 as <- <- <-. congruence.
        -- split; [lia |]. intros Hna Hlen Hidx.
           rewrite Hex; [lia | exact Hna | lia | exact Hidx].
Qed.

(** X14: a management or multicast frame whose first rung is present with
    a count of at least 1 is charged exactly [difs] and one packet duration
    at the rate of that rung: it expires at [now + difs + pkt_duration];
    no value is drawn from [drand48] and the contention window is not
    widened. *)
Theorem noack_expiry_exact (now : timespec) (calls0 : nat) (queue : wqueue)
    (f f' : frame) (loc : tx_locals) (r0 : hwsim_tx_rate) :
  nth_error (tx_rates f) 0 = Some r0 ->
  0 <= idx r0 -> 1 <= count r0 ->
  is_management (data f) = true \/ multicast_bit (hdr_addr1 f) = true ->
  queue_frame_result now calls0 queue f = Ok (f', loc) ->
  exists rate d,
    index_to_rate (idx r0) = Ok rate /\
    pkt_duration (data_len f) rate = Ok d /\
    send_time loc = difs + d /\
    ns_of (expires f') = ns_of now + 1000 * (difs + d) /\
    calls loc = calls0 /\ cw loc = cw_min queue.
Proof.
  intros Hr0 Hidx Hcount Hnoack H. apply queue_frame_result_ok in H.
  destruct H as (i & j & Hsim & _ & Ht & _).
  apply tx_simulate_ok in Hsim.
  replace (is_management (data f) || multicast_bit (hdr_addr1 f)) with true
    in Hsim by (symmetry; apply orb_true_iff; exact Hnoack).
  change IEEE80211_TX_MAX_RATES with (S 3) in Hsim.
  apply tx_rungs_step in Hsim; [| reflexivity].
  destruct Hsim as (rung & Hr & Hsim). rewrite Hr0 in Hr. injection Hr as <-.
  destruct Hsim as [(C & _) | (_ & j1 & loc1 & H1 & H2)]; [lia |].
  destruct (Z.to_nat (count r0)) as [| n] eqn:En; [lia |].
  apply tx_attempts_step in H1.
  destruct H1 as (rate & d & Hrate & Hd & [(_ & _ & Hl1) | (C & _)]);
    [| discriminate C].
  rewrite tx_rungs_acked in H2 by (rewrite Hl1; reflexivity).
  assert (Hloc : loc = loc1) by congruence. subst loc. clear H2.
  apply timespec_add_usec_ns in Ht.
  assert (Hs : send_time loc1 = difs + d)
    by (rewrite Hl1; proj_locals; lia).
  exists rate, d.
  split; [exact Hrate |]. split; [exact Hd |]. split; [exact Hs |].
  split; [rewrite Ht, Hs; reflexivity |].
  rewrite Hl1. split; reflexivity.
Qed.

(** X15: for a frame that expects an acknowledgement (not management, not
    multicast) every attempt draws exactly one value from [drand48]: the
    draws of the enqueue are as many as the attempts it counts. *)
Theorem one_draw_per_attempt (now : timespec) (calls0 : nat) (queue : wqueue)
    (f f' : frame) (loc : tx_locals) :
  is_management (data f) = false -> multicast_bit (hdr_addr1 f) = false ->
  queue_frame_result now calls0 queue f = Ok (f', loc) ->
  Z.of_nat (calls loc) = Z.of_nat calls0 + retries loc.
Proof.
  intros Hm Hmc H. apply queue_frame_result_ok in H.
  destruct H as (i & j & Hsim & _).
  apply tx_simulate_ok in Hsim. rewrite Hm, Hmc in Hsim. simpl orb in Hsim.
  apply (tx_rungs_tally _ 0) in Hsim. destruct Hsim as [Hd _].
  proj_locals. lia.
Qed.

(** X16: the contention window the loops end with lies between the bounds
    of the queue, [cw_min <= cw <= cw_max], whenever the queue has
    [cw_min <= cw_max]. *)
Theorem contention_window_in_bounds (now : timespec) (calls0 : nat)
    (queue : wqueue) (f f' : frame) (loc : tx_locals) :
  cw_min queue <= cw_max queue ->
  queue_frame_result now calls0 queue f = Ok (f', loc) ->
  cw_min queue <= cw loc <= cw_max queue.
Proof.
  intros Hq H. apply queue_frame_result_ok in H.
  destruct H as (i & j & Hsim & _).
  apply tx_simulate_ok in Hsim.
  destruct (is_management (data f) || multicast_bit (hdr_addr1 f)) eqn:En.
  - change IEEE80211_TX_MAX_RATES with (S 3) in Hsim.
    apply tx_rungs_step in Hsim; [| reflexivity].
    destruct Hsim as (rung & _ & [(_ & _ & _ & ->) | (_ & j1 & loc1 & H1 & H2)]);
      [proj_locals; lia |].
    destruct (Z.to_nat (count rung)) as [| n].
    + simpl in H1. injection H1 as <- <-.
      assert (Hk : forall fuel i0 j0 i1 j2 l1,
                 tx_rungs (cw_max queue) (data_len f) 60 true (tx_rates f)
                   fuel i0 j0 l1 = Ok (i1, j2, loc) ->
                 cw l1 = cw_min queue -> cw loc = cw_min queue).
      { induction fuel as [| fuel IHf]; intros i0 j0 i1 j2 l1 Hrun Hc.
        - simpl in Hrun. injection Hrun as <- <- <-. exact Hc.
        - destruct (is_acked l1) eqn:Ha.
          + rewrite tx_rungs_acked in Hrun by exact Ha.
            injection Hrun as <- <- <-. exact Hc.
          + apply tx_rungs_step in Hrun; [| exact Ha].
            destruct Hrun as (rg & _ & [(_ & _ & _ & ->) | (_ & j3 & l3 & A & B)]);
              [exact Hc |].
            destruct (Z.to_nat (count rg)) as [| m].
            * simpl in A. injection A as <- <-. eapply IHf; eassumption.
            * apply tx_attempts_step in A.
              destruct A as (? & ? & _ & _ & [(_ & _ & ->) | (C & _)]);
                [| discriminate C].
              rewrite tx_rungs_acked in B by reflexivity.
              injection B as <- <- <-. proj_locals. exact Hc. }
      rewrite (Hk _ _ _ _ _ _ H2 eq_refl). lia.
    + apply tx_attempts_step in H1.
      destruct H1 as (? & ? & _ & _ & [(_ & _ & ->) | (C & _)]);
        [| discriminate C].
      rewrite tx_rungs_acked in H2 by reflexivity.
      injection H2 as <- <- <-. proj_locals. lia.
  - apply (tx_rungs_tally _ (cw_min queue)) in Hsim.
    destruct Hsim as [_ Hk]. apply Hk; [exact Hq |]. proj_locals. lia.
Qed.

(** X17: the attempts an enqueue counts never exceed what the ladder
    allows, the sum of its counts; when the array of rungs is full of
    present rungs and no attempt is acknowledged, they are exactly that
    sum. *)
Theorem retries_within_ladder (now : timespec) (calls0 : nat) (queue : wqueue)
    (f f' : frame) (loc : tx_locals) :
  Forall (fun r => 0 <= count r) (tx_rates f) ->
  queue_frame_result now calls0 queue f = Ok (f', loc) ->
  0 <= retries loc <= total_attempts (tx_rates f) /\
  (is_acked loc = false ->
   length (tx_rates f) = IEEE80211_TX_MAX_RATES ->
   Forall (fun r => 0 <= idx r) (tx_rates f) ->
   retries loc = total_attempts (tx_rates f)).
Proof.
  intros Hcount H. apply queue_frame_result_ok in H.
  destruct H as (i & j & Hsim & _).
  apply tx_simulate_ok in Hsim.
  apply tx_rungs_retries in Hsim; [| exact Hcount].
  proj_locals. simpl skipn in Hsim. destruct Hsim as [Hb Hex].
  split; [lia |]. intros Hna Hlen Hidx.
  rewrite Hex; [lia | exact Hna | simpl; lia | exact Hidx].
Qed.

End LoopFacts.

Lemma noack_expiry_exact_witness :
  exists rate d,
    index_to_rate 0 = Ok rate /\
    pkt_duration (data_len Scenario.mgmt_frame) rate = Ok d /\
    send_time (Scenario.one_attempt 90 3 0) = difs + d /\
    ns_of (expires Scenario.mgmt_queued) = ns_of Scenario.t0 + 1000 * (difs + d) /\
    calls (Scenario.one_attempt 90 3 0) = 0%nat /\
    cw (Scenario.one_attempt 90 3 0) = cw_min (wqueue_init 3 7).
Proof.
  apply (noack_expiry_exact (M := Scenario.never_ack) Scenario.t0 0
           (wqueue_init 3 7) Scenario.mgmt_frame Scenario.mgmt_queued
           (Scenario.one_attempt 90 3 0) {| idx := 0; count := 1 |}).
  - reflexivity.
  - simpl. lia.
  - simpl. lia.
  - left. reflexivity.
  - vm_compute. reflexivity.
Defined.

Lemma one_draw_per_attempt_witness :
  Z.of_nat (calls (snd four_rungs_lost))
  = Z.of_nat 0 + retries (snd four_rungs_lost).
Proof.
  apply (one_draw_per_attempt (M := Scenario.never_ack) Scenario.t0 0
           (wqueue_init 15 1023) Scenario.four_rungs
           (fst four_rungs_lost) (snd four_rungs_lost)).
  - reflexivity.
  - reflexivity.
  - vm_compute. reflexivity.
Defined.

Lemma contention_window_in_bounds_witness :
  cw_min (wqueue_init 15 1023) <= cw (snd four_rungs_lost)
    <= cw_max (wqueue_init 15 1023).
Proof.
  apply (contention_window_in_bounds (M := Scenario.never_ack) Scenario.t0 0
           (wqueue_init 15 1023) Scenario.four_rungs
           (fst four_rungs_lost) (snd four_rungs_lost)).
  - simpl. lia.
  - vm_compute. reflexivity.
Defined.

Lemma retries_within_ladder_witness :
  0 <= retries (snd four_rungs_lost)
    <= total_attempts (tx_rates Scenario.four_rungs) /\
  (is_acked (snd four_rungs_lost) = false ->
   length (tx_rates Scenario.four_rungs) = IEEE80211_TX_MAX_RATES ->
   Forall (fun r => 0 <= idx r) (tx_rates Scenario.four_rungs) ->
   retries (snd four_rungs_lost)
   = total_attempts (tx_rates Scenario.four_rungs)).
Proof.
  apply (retries_within_ladder (M := Scenario.never_ack) Scenario.t0 0
           (wqueue_init 15 1023) Scenario.four_rungs
           (fst four_rungs_lost) (snd four_rungs_lost)).
  - repeat constructor; simpl; lia.
  - vm_compute. reflexivity.
Defined.

(** ** From the incoming message to the messages sent *)

Section RoundTrip.

Context {M : Medium}.

(** X18: what came in goes out unchanged.  When a frame message from a
    registered transmitter is enqueued, the queued frame keeps the payload
    and the cookie of the message, and at its delivery every cloned frame
    carries that payload and the tx-info message carries that cookie and
    the address of the station found for the transmitter. *)
Theorem payload_and_cookie_round_trip (stack_min_expires now : timespec)
    (ctx ctx' : wmediumd) (attrs : hwsim_frame_attrs) (src : list Z) (s : nat) :
  ATTR_ADDR_TRANSMITTER attrs = Some src ->
  get_station_by_addr (stations ctx) src 0 = Ok (Some s) ->
  process_messages_cb stack_min_expires now ctx (CMD_FRAME attrs) = Ok ctx' ->
  exists st f',
    nth_error (stations ctx) s = Some st /\
    stations ctx' =
      update_station (stations ctx) s
        (station_add_tail (is_management (ATTR_FRAME attrs)) f') /\
    data f' = ATTR_FRAME attrs /\ cookie f' = ATTR_COOKIE attrs /\
    sender f' = s /\
    forall msgs,
      deliver_frame (stations ctx') f' = Ok msgs ->
      Forall (fun m =>
                match m with
                | HWSIM_CMD_FRAME _ p _ _ => p = ATTR_FRAME attrs
                | HWSIM_CMD_TX_INFO_FRAME a _ _ _ ck =>
                    a = addr st /\ ck = ATTR_COOKIE attrs
                end) msgs.
Proof.
  intros Hsrc Hfound H. unfold process_messages_cb in H.
  rewrite Hsrc, Hfound, bind_Ok_l in H.
  apply queue_frame_ok in H. cbn [frame_of_attrs data] in H.
  destruct H as (st & f' & loc & Hst & Hres & Hsts & _).
  apply queue_frame_result_ok in Hres.
  destruct Hres as (_ & _ & _ & _ & _ & Hck & Hsender & Hdata).
  cbn [frame_of_attrs cookie sender data] in Hck, Hsender, Hdata.
  exists st, f'.
  split; [exact Hst |]. split; [exact Hsts |]. split; [exact Hdata |].
  split; [exact Hck |]. split; [exact Hsender |].
  intros msgs Hd. apply deliver_frame_ok in Hd.
  destruct Hd as (s' & clones & Hs' & -> & Hclones).
  assert (Haddr : addr s' = addr st).
  { rewrite Hsts, Hsender in Hs'.
    clear - Hs' Hst. revert s Hs' Hst.
    induction (stations ctx) as [| x l IH]; intros s Hs' Hst.
    - destruct s; discriminate Hst.
    - destruct s as [| s]; simpl in Hs', Hst.
      + injection Hs' as <-. injection Hst as <-.
        destruct (is_management (ATTR_FRAME attrs)); reflexivity.
      + eapply IH; eassumption. }
  apply Forall_app. split.
  - assert (Hall : forall sts out,
               deliver_rx sts (addr s') (hdr_addr1 f') f' = Ok out ->
               Forall (fun m =>
                         match m with
                         | HWSIM_CMD_FRAME _ p _ _ => p = ATTR_FRAME attrs
                         | HWSIM_CMD_TX_INFO_FRAME a _ _ _ ck =>
                             a = addr st /\ ck = ATTR_COOKIE attrs
                         end) out).
    { induction sts as [| x sts IH]; intros out Hout; simpl in Hout.
      - injection Hout as <-. constructor.
      - inv_bind.
        match goal with v : bool |- _ => destruct v end; [now apply IH |].
        inv_bind. subst out.
        match goal with E : deliver_rx _ _ _ _ = Ok _ |- _ => apply IH in E end.
        match goal with |- context [if ?c then _ else _] => destruct c end;
          [constructor; [exact Hdata | assumption] | assumption]. }
    destruct (ack_flag_set (flags f')).
    + eapply Hall. exact Hclones.
    + subst clones. constructor.
  - constructor; [| constructor].
    unfold tx_info_of. split; [exact Haddr | exact Hck].
Qed.

End RoundTrip.

Lemma payload_and_cookie_round_trip_witness :
  exists st f',
    nth_error (stations Scenario.ctx0) 0 = Some st /\
    stations Scenario.preset_ack_queued =
      update_station (stations Scenario.ctx0) 0
        (station_add_tail (is_management (ATTR_FRAME Scenario.preset_ack)) f') /\
    data f' = ATTR_FRAME Scenario.preset_ack /\
    cookie f' = ATTR_COOKIE Scenario.preset_ack /\
    sender f' = 0%nat /\
    forall msgs,
      deliver_frame (stations Scenario.preset_ack_queued) f' = Ok msgs ->
      Forall (fun m =>
                match m with
                | HWSIM_CMD_FRAME _ p _ _ => p = ATTR_FRAME Scenario.preset_ack
                | HWSIM_CMD_TX_INFO_FRAME a _ _ _ ck =>
                    a = addr st /\ ck = ATTR_COOKIE Scenario.preset_ack
                end) msgs.
Proof.
  apply (payload_and_cookie_round_trip (M := Scenario.never_ack) Scenario.stack
           Scenario.t0 Scenario.ctx0 Scenario.preset_ack_queued
           Scenario.preset_ack Scenario.A 0).
  - reflexivity.
  - reflexivity.
  - vm_compute. reflexivity.
Defined.

(** ** A unicast frame has at most one receiver *)

Lemma addr_eqb_prefix (a b : list Z) :
  (ETH_ALEN <= length a)%nat -> length b = ETH_ALEN ->
  addr_eqb a b = true <-> firstn ETH_ALEN a = b.
Proof.
  intros Ha Hb.
  rewrite <- (addr_eqb_eq (firstn ETH_ALEN a) b);
    [| rewrite length_firstn; lia | exact Hb].
  unfold addr_eqb. rewrite firstn_firstn, Nat.min_id. reflexivity.
Qed.

Lemma filter_at_most_one (p : station -> bool) (x : list Z) (sts : list station) :
  NoDup (map addr sts) ->
  (forall st, In st sts -> p st = true -> addr st = x) ->
  (length (filter p sts) <= 1)%nat.
Proof.
  induction sts as [| st sts IH]; intros Hnd Hp; [simpl; lia |].
  inversion Hnd as [| ? ? Hnotin Hnd']; subst.
  assert (IH' : (length (filter p sts) <= 1)%nat).
  { apply IH; [exact Hnd' |]. intros st' Hin. apply Hp. now right. }
  simpl. destruct (p st) eqn:Hst; [| exact IH'].
  assert (Hrest : filter p sts = []).
  { destruct (filter p sts) as [| st' l] eqn:Hf; [reflexivity |].
    assert (Hin : In st' (filter p sts)) by (rewrite Hf; now left).
    apply filter_In in Hin. destruct Hin as [Hin Hp'].
    exfalso. apply Hnotin.
    rewrite (Hp st (or_introl eq_refl) Hst).
    rewrite <- (Hp st' (or_intror Hin) Hp').
    now apply in_map. }
  rewrite Hrest. simpl. lia.
Qed.

(** X19: a unicast frame is never duplicated.  Among stations with distinct
    six-byte addresses, the delivery of an acknowledged frame whose [addr1]
    is not multicast sends at most one cloned frame, followed by the
    tx-info message; a station gets the cloned frame exactly when its
    address is the six bytes of [addr1] and is not the sender's. *)
Theorem unicast_single_receiver (sts : list station) (f : frame) (s : station) :
  nth_error sts (sender f) = Some s ->
  well_formed_addrs sts ->
  NoDup (map addr sts) ->
  (10 <= length (data f))%nat ->
  multicast_bit (hdr_addr1 f) = false ->
  ack_flag_set (flags f) = true ->
  exists clones,
    deliver_frame sts f = Ok (clones ++ [tx_info_of (addr s) f]) /\
    (length clones <= 1)%nat /\
    forall st, In st sts ->
      (In (cloned_frame_to f st) clones <->
       addr st = firstn ETH_ALEN (hdr_addr1 f) /\ addr st <> addr s).
Proof.
  intros Hs Hwf Hnd Hlen Hmc Hack.
  assert (Hd : (ETH_ALEN <= length (hdr_addr1 f))%nat)
    by (rewrite hdr_addr1_length; unfold ETH_ALEN; lia).
  assert (Hlens : forall st, In st sts -> length (addr st) = ETH_ALEN)
    by (apply Forall_forall; exact Hwf).
  assert (Hsl : length (addr s) = ETH_ALEN)
    by (apply Hlens; eapply nth_error_In; exact Hs).
  assert (Hp : forall st, In st sts ->
             negb (addr_eqb (addr s) (addr st)) &&
             (multicast_bit (hdr_addr1 f) || addr_eqb (hdr_addr1 f) (addr st))
             = true <->
             addr st = firstn ETH_ALEN (hdr_addr1 f) /\ addr st <> addr s).
  { intros st Hin. rewrite Hmc. simpl orb.
    rewrite andb_true_iff, negb_true_iff.
    rewrite (addr_eqb_prefix _ _ Hd (Hlens st Hin)).
    rewrite <- not_true_iff_false.
    rewrite (addr_eqb_eq _ _ Hsl (Hlens st Hin)).
    split; intros [H1 H2]; split; congruence. }
  exists (map (cloned_frame_to f) (receivers sts (addr s) f)).
  split; [| split].
  - rewrite (deliver_frame_eq sts f s Hs Hwf Hlen), Hack. reflexivity.
  - rewrite length_map. unfold receivers.
    apply (filter_at_most_one _ (firstn ETH_ALEN (hdr_addr1 f))); [exact Hnd |].
    intros st Hin Hst. apply (Hp st Hin) in Hst. tauto.
  - intros st Hin. rewrite <- (Hp st Hin). rewrite in_map_iff. split.
    + intros (st' & Heq & Hin'). unfold receivers in Hin'.
      apply filter_In in Hin'. destruct Hin' as [_ Hst'].
      injection Heq as Heq. rewrite <- Heq. exact Hst'.
    + intros Hst. exists st. split; [reflexivity |].
      unfold receivers. apply filter_In. split; [exact Hin | exact Hst].
Qed.

Lemma unicast_single_receiver_witness :
  exists clones,
    deliver_frame (init_stations [Scenario.A; Scenario.B])
      (Scenario.frame_A (Scenario.data_payload Scenario.B 24) 4 Scenario.one_try)
    = Ok (clones ++
          [tx_info_of Scenario.A
             (Scenario.frame_A (Scenario.data_payload Scenario.B 24) 4
                Scenario.one_try)]) /\
    (length clones <= 1)%nat /\
    forall st, In st (init_stations [Scenario.A; Scenario.B]) ->
      (In (cloned_frame_to
             (Scenario.frame_A (Scenario.data_payload Scenario.B 24) 4
                Scenario.one_try) st) clones <->
       addr st = firstn ETH_ALEN
                   (hdr_addr1 (Scenario.frame_A
                                 (Scenario.data_payload Scenario.B 24) 4
                                 Scenario.one_try)) /\
       addr st <> Scenario.A).
Proof.
  apply (unicast_single_receiver (init_stations [Scenario.A; Scenario.B])
           (Scenario.frame_A (Scenario.data_payload Scenario.B 24) 4
              Scenario.one_try)
           {| addr := Scenario.A; data_queue := wqueue_init 15 1023;
              mgmt_queue := wqueue_init 3 7 |}).
  - reflexivity.
  - repeat constructor.
  - repeat constructor; simpl; intros C;
      repeat (destruct C as [C | C]; try discriminate C); exact C.
  - simpl. lia.
  - reflexivity.
  - reflexivity.
Defined.
